(** * GWSumm Guardian tab: segments and transitions of a Guardian node

    A shallow embedding of [gwsumm/tabs/guardian.py]: the part of
    [GuardianTab.process] that turns the state-code series of a Guardian
    node into per-state segment flags and a per-state transition log, the
    tag naming of [GuardianTab.from_ini], and the duty-cycle and label
    computations of [GuardianTab.write_state_html].

    Conventions of the embedding:
    - sample values and array indices are [Z] (the series are fetched with
      [dtype='int16'], indices are numpy [int64]; the code does no
      arithmetic on sample values, and index arithmetic stays far from the
      64-bit range);
    - times are [Z] ticks of the sampling clock: sample [i] of a series
      with origin [x0] and step [dx] has the time [x0 + i * dx];
    - a Python exception is the result [None] of the option monad;
    - dictionaries are stdpp [gmap]s; the [OrderedDict] of configured
      states, whose iteration order matters, is an association list. *)

From Stdlib Require Import ZArith QArith Lia Ascii DecimalString.
From stdpp Require Import gmap strings list fin_maps sorting.

Local Open Scope Z_scope.

(** ** The numpy and Python primitives the code uses *)

Module Numpy.

(** [a == v] on an integer array: elementwise comparison with a scalar. *)
Definition eq_scalar (a : list Z) (v : Z) : list bool :=
  (λ x, x =? v) <$> a.

(** [a.astype(int)] on a boolean array. *)
Definition astype_int (a : list bool) : list Z :=
  (λ b : bool, if b then 1 else 0) <$> a.

(** [numpy.diff(a)]: [out[i] = a[i+1] - a[i]], one element shorter than
    [a], empty for arrays of fewer than two elements. *)
Fixpoint diff (a : list Z) : list Z :=
  match a with
  | x :: (y :: _) as rest => (y - x) :: diff rest
  | _ => []
  end.

(** [a.nonzero()[0]] on a one-dimensional boolean array: the indices of
    the [True] entries, in increasing order.  [nonzero_from i a] numbers
    the entries of [a] from [i]. *)
Fixpoint nonzero_from (i : Z) (a : list bool) : list Z :=
  match a with
  | [] => []
  | b :: rest =>
      if b then i :: nonzero_from (i + 1) rest else nonzero_from (i + 1) rest
  end.

Definition nonzero (a : list bool) : list Z := nonzero_from 0 a.

(** [a[k]] for an integer index: a negative index counts from the end,
    an index outside [-len(a) .. len(a)-1] raises [IndexError]. *)
Definition getitem {A : Type} (a : list A) (k : Z) : option A :=
  if 0 <=? k then a !! Z.to_nat k
  else if 0 <=? Z.of_nat (length a) + k
       then a !! Z.to_nat (Z.of_nat (length a) + k)
       else None.

End Numpy.

(** ** Time series *)

(** A [gwpy] [TimeSeries]: origin, step and the array of samples. *)
Record TimeSeries := mkTimeSeries {
  x0 : Z;
  dx : Z;
  value : list Z
}.

(** [series.times]: the array of sample times. *)
Definition times (s : TimeSeries) : list Z :=
  (λ i : nat, x0 s + Z.of_nat i * dx s) <$> seq 0 (length (value s)).

(** A transition record [(t, from_, to_)] of [GuardianTab.transitions]. *)
Definition Transition : Type := Z * Z * Z.

(** Monadic left fold: a [for] loop whose body may raise. *)
Fixpoint foldlM {A B : Type} (f : A → B → option A) (a : A) (l : list B)
  : option A :=
  match l with
  | [] => Some a
  | b :: rest => a' ← f a b; foldlM f a' rest
  end.

(** ** The transition detector of [GuardianTab.process] *)

Module Detector.
Import Numpy.

(** [instate = sdata == v] *)
Definition instate (sdata : TimeSeries) (v : Z) : list bool :=
  eq_scalar (value sdata) v.

(** [transin = (numpy.diff(instate.astype(int)) == 1).nonzero()[0] + 1] *)
Definition transin (sdata : TimeSeries) (v : Z) : list Z :=
  (λ k, k + 1) <$> nonzero (eq_scalar (diff (astype_int (instate sdata v))) 1).

(** [transout = (numpy.diff(instate.astype(int)) == -1).nonzero()[0] + 1] *)
Definition transout (sdata : TimeSeries) (v : Z) : list Z :=
  (λ k, k + 1) <$> nonzero (eq_scalar (diff (astype_int (instate sdata v))) (-1)).

(** The body of [for i, j in zip(transin, transout)]: read the entry
    time, the sample before the entry and the sample at the exit, and
    append the record to the log of the state. *)
Definition record_transition (sdata : TimeSeries) (log : list Transition)
    (ij : Z * Z) : option (list Transition) :=
  t ← getitem (times sdata) ij.1;
  from_ ← getitem (value sdata) (ij.1 - 1);
  to_ ← getitem (value sdata) ij.2;
  Some (log ++ [(t, from_, to_)]).

(** The whole loop for one state [v], started on the log [log]. *)
Definition state_transitions (sdata : TimeSeries) (v : Z)
    (log : list Transition) : option (list Transition) :=
  foldlM (record_transition sdata) log (zip (transin sdata v) (transout sdata v)).

End Detector.

(** ** Python string formatting *)

(** The values the code passes to the [%] operator. *)
Inductive pyval :=
  | PStr (s : string)
  | PInt (z : Z).

(** [str(z)] for an integer. *)
Definition str_of_int (z : Z) : string :=
  NilZero.string_of_int (Z.to_int z).

(** [fmt % args] for the conversions the code uses: [%s], [%d] and the
    escape [%%].  [None] where Python raises ([TypeError] for too few or
    too many arguments or for [%d] on a string, [ValueError] for an
    incomplete format) and for every other conversion character, which
    this embedding does not cover. *)
Fixpoint pct_format (fmt : string) (args : list pyval) : option string :=
  match fmt with
  | EmptyString =>
      match args with
      | [] => Some EmptyString
      | _ :: _ => None
      end
  | String c rest =>
      if Ascii.eqb c "%"%char then
        match rest with
        | EmptyString => None
        | String d rest' =>
            if Ascii.eqb d "%"%char then String "%"%char <$> pct_format rest' args
            else if Ascii.eqb d "s"%char then
              match args with
              | PStr a :: args' => String.append a <$> pct_format rest' args'
              | PInt z :: args' =>
                  String.append (str_of_int z) <$> pct_format rest' args'
              | [] => None
              end
            else if Ascii.eqb d "d"%char then
              match args with
              | PInt z :: args' =>
                  String.append (str_of_int z) <$> pct_format rest' args'
              | _ => None
              end
            else None
        end
      else String c <$> pct_format rest args
  end.

(** ** Segment tags *)

Module Tags.

Definition REQUESTSTUB : string := "+request".
Definition NOMINALSTUB : string := "+nominal".

(** [new.segmenttag = '%s:%s %%s' % (new.ifo, new.node)] *)
Definition segmenttag (ifo node : string) : option string :=
  pct_format "%s:%s %%s" [PStr ifo; PStr node].

(** [tag = self.segmenttag % name] *)
Definition active_tag (segmenttag name : string) : option string :=
  pct_format segmenttag [PStr name].

(** [tag = self.segmenttag % name + REQUESTSTUB]; [%] binds tighter
    than [+]. *)
Definition request_tag (segmenttag name : string) : option string :=
  s ← pct_format segmenttag [PStr name]; Some (s +:+ REQUESTSTUB).

(** [tag = self.segmenttag % name + NOMINALSTUB] *)
Definition nominal_tag (segmenttag name : string) : option string :=
  s ← pct_format segmenttag [PStr name]; Some (s +:+ NOMINALSTUB).

(** [self.segmenttag % 'OK'] *)
Definition ok_tag (segmenttag : string) : option string :=
  pct_format segmenttag [PStr "OK"].

End Tags.

(** ** Segments and flags *)

(** A half-open segment [[a, b)]. *)
Definition Segment : Type := Z * Z.

(** A [DataQualityFlag]: the segments in which the flag is defined
    ([flag.valid]) and those in which it is active ([flag.active]). *)
Record DataQualityFlag := mkFlag {
  valid : list Segment;
  active : list Segment
}.

(** The time [t] lies in one of the segments of [l]. *)
Definition covered (l : list Segment) (t : Z) : Prop :=
  ∃ s, s ∈ l ∧ s.1 <= t < s.2.

Module Segmenter.

(** Modelled from the spec: [StateTimeSeries.to_dqflag] of the [gwpy]
    library, which the repository calls and does not define.  The active
    segments follow the Segmenter of the specification: a segment opens
    at the time of the first sample of each maximal run of [True] and
    closes at the time of the sample after the run, one step past the
    last sample for a run that reaches the end of the series.

    [bool_segments x0 dx i open mask] scans [mask], whose first entry is
    sample [i]; [open] holds the opening time of the run in progress. *)
Fixpoint bool_segments (x0 dx : Z) (i : nat) (open : option Z)
    (mask : list bool) : list Segment :=
  match mask with
  | [] =>
      match open with
      | Some a => [(a, x0 + Z.of_nat i * dx)]
      | None => []
      end
  | true :: rest =>
      match open with
      | Some a => bool_segments x0 dx (S i) (Some a) rest
      | None => bool_segments x0 dx (S i) (Some (x0 + Z.of_nat i * dx)) rest
      end
  | false :: rest =>
      match open with
      | Some a => (a, x0 + Z.of_nat i * dx) :: bool_segments x0 dx (S i) None rest
      | None => bool_segments x0 dx (S i) None rest
      end
  end.

(** Modelled from the spec: the flag of a boolean series.  It is valid
    on the span of the series and active on the runs of [True]. *)
Definition to_dqflag (x0 dx : Z) (mask : list bool) : DataQualityFlag :=
  {| valid := [(x0, x0 + Z.of_nat (length mask) * dx)];
     active := bool_segments x0 dx 0 None mask |}.

(** [segment(series, value)] of the specification, as the code obtains
    it: [(sdata == v).to_dqflag(...)]. *)
Definition segment (s : TimeSeries) (v : Z) : list Segment :=
  active (to_dqflag (x0 s) (dx s) (Numpy.eq_scalar (value s) v)).

End Segmenter.

(** ** The segment store *)

Module Aggregator.

(** Modelled from the spec: the union of two interval lists of the
    Segment Aggregator ([DataQualityDict.__iadd__] of [gwpy], which the
    repository calls on [globalv.SEGMENTS] and does not define): sort all
    intervals by start, then coalesce any overlapping or touching pairs
    into one. *)
Fixpoint insert_by_start (s : Segment) (l : list Segment) : list Segment :=
  match l with
  | [] => [s]
  | s' :: rest =>
      if s.1 <=? s'.1 then s :: l else s' :: insert_by_start s rest
  end.

Definition sort_by_start (l : list Segment) : list Segment :=
  foldr insert_by_start [] l.

(** [coalesce_from cur l]: [cur] is the segment being grown, [l] the
    remaining segments in order of start. *)
Fixpoint coalesce_from (cur : Segment) (l : list Segment) : list Segment :=
  match l with
  | [] => [cur]
  | s :: rest =>
      if s.1 <=? cur.2
      then coalesce_from (cur.1, Z.max cur.2 s.2) rest
      else cur :: coalesce_from s rest
  end.

Definition coalesce (l : list Segment) : list Segment :=
  match sort_by_start l with
  | [] => []
  | s :: rest => coalesce_from s rest
  end.

Definition union (a b : list Segment) : list Segment := coalesce (a ++ b).

(** Modelled from the spec: the union of two flags, list by list. *)
Definition flag_union (f g : DataQualityFlag) : DataQualityFlag :=
  {| valid := union (valid f) (valid g);
     active := union (active f) (active g) |}.

(** Modelled from the spec: [merge(tag, segments)].  A new tag is
    inserted as it is; for a tag already stored the union with the
    stored flag replaces it. *)
Definition merge (tag : string) (f : DataQualityFlag)
    (store : gmap string DataQualityFlag) : gmap string DataQualityFlag :=
  match store !! tag with
  | None => <[tag := f]> store
  | Some old => <[tag := flag_union old f]> store
  end.

(** Modelled from the spec: [SEGMENTS += other], the merge of every tag
    of [other]. *)
Definition iadd (store other : gmap string DataQualityFlag)
  : gmap string DataQualityFlag :=
  union_with (λ old f, Some (flag_union old f)) store other.

End Aggregator.

(** ** [GuardianTab.process] *)

Module GuardianTab.
Import Numpy Detector Tags Segmenter Aggregator.

(** The attributes of the tab that [process] reads. *)
Record Tab := mkTab {
  grdstates : list (Z * string);
  segmenttag : string
}.

(** The state [process] updates: [self.transitions] and
    [globalv.SEGMENTS]. *)
Record State := mkState {
  transitions : gmap Z (list Transition);
  SEGMENTS : gmap string DataQualityFlag
}.

(** The variables of one pass of the loop over the epochs. *)
Record Epoch := mkEpoch {
  ep_transitions : gmap Z (list Transition);
  ssegs : gmap string DataQualityFlag;
  rsegs : gmap string DataQualityFlag;
  nsegs : gmap string DataQualityFlag
}.

(** The body of [for v, name in self.grdstates.iteritems()].  The log
    [self.transitions[v]] is looked up once for the state; the code looks
    it up at every append, and [v] is a key of the dictionary throughout. *)
Definition process_state (tab : Tab) (sdata rdata ndata : TimeSeries)
    (e : Epoch) (item : Z * string) : option Epoch :=
  let v := item.1 in
  let name := item.2 in
  tag ← active_tag (segmenttag tab) name;
  let ssegs' :=
    <[tag := to_dqflag (x0 sdata) (dx sdata) (instate sdata v)]> (ssegs e) in
  log ← ep_transitions e !! v;
  log' ← state_transitions sdata v log;
  let transitions' := <[v := log']> (ep_transitions e) in
  rtag ← request_tag (segmenttag tab) name;
  let rsegs' :=
    <[rtag := to_dqflag (x0 rdata) (dx rdata) (eq_scalar (value rdata) v)]>
      (rsegs e) in
  ntag ← nominal_tag (segmenttag tab) name;
  let nsegs' :=
    <[ntag := to_dqflag (x0 ndata) (dx ndata) (eq_scalar (value ndata) v)]>
      (nsegs e) in
  Some (mkEpoch transitions' ssegs' rsegs' nsegs').

(** The body of [for sdata, rdata, ndata, okdata in zip(...)]. *)
Definition process_epoch (tab : Tab) (st : State)
    (data : TimeSeries * TimeSeries * TimeSeries * TimeSeries) : option State :=
  let '(sdata, rdata, ndata, okdata) := data in
  let oksegs := to_dqflag (x0 okdata) (dx okdata) (eq_scalar (value okdata) 1) in
  e ← foldlM (process_state tab sdata rdata ndata)
        (mkEpoch (transitions st) ∅ ∅ ∅) (grdstates tab);
  oktag ← ok_tag (segmenttag tab);
  Some (mkState (ep_transitions e)
          (iadd (iadd (iadd (iadd (SEGMENTS st) (ssegs e)) (rsegs e)) (nsegs e))
             {[oktag := oksegs]})).

(** [self.transitions = dict((v, []) for v in self.grdstates)] *)
Definition empty_transitions (tab : Tab) : gmap Z (list Transition) :=
  list_to_map ((λ kv : Z * string, (kv.1, [])) <$> grdstates tab).

(** The segments and transitions part of [process], on the series of
    the four channels, one per epoch, and the store [segments] it
    finds. *)
Definition process (tab : Tab) (segments : gmap string DataQualityFlag)
    (grddata reqdata nomdata okdata : list TimeSeries) : option State :=
  foldlM (process_epoch tab)
    (mkState (empty_transitions tab) segments)
    (zip (zip (zip grddata reqdata) nomdata) okdata).

(** ** [GuardianTab.write_state_html] *)

(** [self.grdstates.get(code, 'Unknown')] *)
Definition state_label (grdstates : list (Z * string)) (code : Z) : string :=
  match list_find (λ kv : Z * string, kv.1 = code) grdstates with
  | Some (_, kv) => kv.2
  | None => "Unknown"
  end.

(** ['%s [%d]' % (self.grdstates.get(code, 'Unknown'), code)] *)
Definition render_code (grdstates : list (Z * string)) (code : Z)
  : option string :=
  pct_format "%s [%d]" [PStr (state_label grdstates code); PInt code].

(** [abs(segmentlist)]: the sum of the lengths of the segments. *)
Definition abs_segments (l : list Segment) : Z :=
  foldr (λ s acc, (s.2 - s.1) + acc) 0 l.

(** [a / float(b)]: [ZeroDivisionError] for a zero divisor. *)
Definition truediv (a b : Q) : option Q :=
  if Qeq_bool b 0 then None else Some (a / b)%Q.

(** [[
    try:
        duty = abs(flag.active) / float(abs(flag.valid)) * 100.
    except ZeroDivisionError:
        duty = 0
    ]] *)
Definition duty (flag : DataQualityFlag) : Q :=
  match truediv (inject_Z (abs_segments (active flag)))
                (inject_Z (abs_segments (valid flag))) with
  | Some q => (q * 100)%Q
  | None => 0%Q
  end.


End GuardianTab.

(** ** Index scans equal to the array expressions

    The edge lists of the detector, written as scans over the samples.
    They are proved equal to [transin] and [transout] below and serve the
    inductive proofs. *)

Module Edges.

(** The indices [i], numbered from [i], of the samples of [l] that
    equal [v] and follow a sample different from [v]; [prev] is the
    sample before the first one of [l]. *)
Fixpoint rising_from (v : Z) (i : Z) (prev : Z) (l : list Z) : list Z :=
  match l with
  | [] => []
  | y :: rest =>
      if negb (prev =? v) && (y =? v)
      then i :: rising_from v (i + 1) y rest
      else rising_from v (i + 1) y rest
  end.

(** The indices of the samples that differ from [v] and follow a sample
    equal to [v]. *)
Fixpoint falling_from (v : Z) (i : Z) (prev : Z) (l : list Z) : list Z :=
  match l with
  | [] => []
  | y :: rest =>
      if (prev =? v) && negb (y =? v)
      then i :: falling_from v (i + 1) y rest
      else falling_from v (i + 1) y rest
  end.

(** The pairs (entry index, exit index) of the runs of [v] that are
    entered and left inside the series; [open] is the entry index of the
    run in progress, if that run was entered inside the series. *)
Fixpoint run_pairs (v : Z) (i : Z) (prev : Z) (open : option Z) (l : list Z)
  : list (Z * Z) :=
  match l with
  | [] => []
  | y :: rest =>
      if prev =? v then
        if y =? v then run_pairs v (i + 1) y open rest
        else match open with
             | Some a => (a, i) :: run_pairs v (i + 1) y None rest
             | None => run_pairs v (i + 1) y None rest
             end
      else
        if y =? v then run_pairs v (i + 1) y (Some i) rest
        else run_pairs v (i + 1) y None rest
  end.



End Edges.

(** ** Notions of the statements *)

(** *** The detector *)

(** The record the loop body appends for the index pair [ij]. *)
Definition record_of (s : TimeSeries) (ij : Z * Z) : Transition :=
  (x0 s + ij.1 * dx s,
   value s !!! Z.to_nat (ij.1 - 1),
   value s !!! Z.to_nat ij.2).

(** The records the detector appends for the state [v]. *)
Definition detections (s : TimeSeries) (v : Z) : list Transition :=
  record_of s <$> zip (Detector.transin s v) (Detector.transout s v).

(** The index pair [ij] lies inside the series, the entry index after
    the first sample. *)
Definition in_range (s : TimeSeries) (ij : Z * Z) : Prop :=
  1 <= ij.1 < Z.of_nat (length (value s)) ∧
  0 <= ij.2 < Z.of_nat (length (value s)).

(** *** Tabs, epochs and tags *)

(** The string has no [%] character. *)
Fixpoint percent_free (s : string) : bool :=
  match s with
  | EmptyString => true
  | String c rest => negb (Ascii.eqb c "%"%char) && percent_free rest
  end.

(** The tab was built by [from_ini] for an interferometer and a node
    whose names hold no [%]; the codes of [grdstates], the keys of a
    dictionary, are distinct. *)
Definition tab_wf (tab : GuardianTab.Tab) : Prop :=
  NoDup (GuardianTab.grdstates tab).*1 ∧
  ∃ ifo node, percent_free ifo = true ∧ percent_free node = true ∧
    Tags.segmenttag ifo node = Some (GuardianTab.segmenttag tab).

(** The tuples the loop over the epochs runs through. *)
Definition epochs (grddata reqdata nomdata okdata : list TimeSeries)
  : list (TimeSeries * TimeSeries * TimeSeries * TimeSeries) :=
  zip (zip (zip grddata reqdata) nomdata) okdata.

(** The string [tag] is one of the tags of the node [ifo:node] with the
    state names [names]: the liveness tag, or the active, request or
    nominal tag of one of the names. *)
Definition node_tag (ifo node : string) (names : list string) (tag : string)
  : Prop :=
  tag = ifo +:+ ":" +:+ node +:+ " OK" ∨
  ∃ name, name ∈ names ∧
    (tag = ifo +:+ ":" +:+ node +:+ " " +:+ name ∨
     tag = ifo +:+ ":" +:+ node +:+ " " +:+ name +:+ "+request" ∨
     tag = ifo +:+ ":" +:+ node +:+ " " +:+ name +:+ "+nominal").



(** *** Totals of the transition logs *)




(** *** Runs of a mask *)

(** The time of sample [k] of a series with origin [x0] and step [dx]. *)
Definition sample_time (x0 dx : Z) (k : nat) : Z := x0 + Z.of_nat k * dx.

(** The samples [n .. m-1] of the mask are [True]. *)
Definition all_true (mask : list bool) (n m : nat) : Prop :=
  ∀ k, (n ≤ k < m)%nat → mask !! k = Some true.

(** No [True] sample follows at [m]: the mask ends there or holds
    [False]. *)
Definition run_end (mask : list bool) (m : nat) : Prop :=
  m = length mask ∨ mask !! m = Some false.

(** The samples [i .. j-1] are a maximal run of [True]. *)
Definition maximal_run (mask : list bool) (i j : nat) : Prop :=
  (i < j)%nat ∧
  (i = 0%nat ∨ mask !! (i - 1)%nat = Some false) ∧
  all_true mask i j ∧
  run_end mask j.

(** A run is in progress. *)
Definition opened (open : option Z) : bool :=
  match open with
  | Some _ => true
  | None => false
  end.

(** *** Lists of segments *)

(** The segments are in order of their starts. *)
Fixpoint start_sorted (l : list Segment) : Prop :=
  match l with
  | [] => True
  | s :: rest => Forall (λ s' : Segment, s.1 <= s'.1) rest ∧ start_sorted rest
  end.

(** The segment is not empty. *)
Definition proper (s : Segment) : Prop := s.1 < s.2.

(** The list is coalesced: its segments are not empty, in order, and
    any two neighbours are apart. *)
Fixpoint normal (l : list Segment) : Prop :=
  match l with
  | [] => True
  | s :: rest =>
      proper s ∧
      match rest with
      | [] => True
      | s' :: _ => s.2 < s'.1
      end ∧
      normal rest
  end.

(** ** The scenarios of the specification and other inputs *)

(** The codes [1,1,1,2,2,1,1] at 1 Hz from [t = 0]. *)
Definition scenario : TimeSeries := mkTimeSeries 0 1 [1; 1; 1; 2; 2; 1; 1].

(** A tab of the node [X1:NODE] with the two states of the scenario. *)
Definition scenario_tab : GuardianTab.Tab :=
  GuardianTab.mkTab [(1, "state_a"); (2, "state_b")] "X1:NODE %s".

(** The codes [1,3,2]: the state 3 is passed through and is not one of
    the two states of [scenario_tab]. *)
Definition through_unlisted : TimeSeries := mkTimeSeries 0 1 [1; 3; 2].

(** A series over the two states that begins in state 1 and ends in
    state 2. *)
Definition two_state_series : TimeSeries := mkTimeSeries 0 1 [1; 1; 2; 1; 2].

(** Two epochs of ten samples in state 1, the second beginning where the
    first ends. *)
Definition epoch1 : TimeSeries := mkTimeSeries 0 1 (replicate 10 1).
Definition epoch2 : TimeSeries := mkTimeSeries 10 1 (replicate 10 1).

(** A flag that is valid nowhere, and one valid and active on 100 s. *)
Definition flag_without_validity : DataQualityFlag := mkFlag [] [(0, 5)].
Definition flag_always_active : DataQualityFlag := mkFlag [(0, 100)] [(0, 100)].

(** * The rest of the Guardian tab

    The parts of [guardian.py] around the segments and transitions:
    the reading of the states in [GuardianTab.from_ini], the channel
    names of [GuardianTab.process], the transitions table of
    [GuardianTab.write_state_html] and the keys [GuardianStatePlot] looks
    up. *)

(** ** Python string methods *)

Module PyStr.

(** [c in chars] for a character and a string of characters. *)
Fixpoint char_in (c : Ascii.ascii) (chars : string) : bool :=
  match chars with
  | EmptyString => false
  | String d rest => Ascii.eqb c d || char_in c rest
  end.

(** [s[0]]: [IndexError] on the empty string. *)
Definition first_char (s : string) : option Ascii.ascii :=
  match s with
  | EmptyString => None
  | String c _ => Some c
  end.

(** [s.lstrip(chars)] *)
Fixpoint lstrip (chars : string) (s : string) : string :=
  match s with
  | EmptyString => EmptyString
  | String c rest => if char_in c chars then lstrip chars rest else s
  end.

(** [s.rstrip(chars)] *)
Fixpoint rstrip (chars : string) (s : string) : string :=
  match s with
  | EmptyString => EmptyString
  | String c rest =>
      match rstrip chars rest with
      | EmptyString => if char_in c chars then EmptyString else String c EmptyString
      | String d rest' => String c (String d rest')
      end
  end.

(** [s.strip(chars)] *)
Definition strip (chars : string) (s : string) : string :=
  rstrip chars (lstrip chars s).

(** [s.split(sep)] for a separator of one character: the pieces between
    the separators, one piece more than there are separators. *)
Fixpoint split (sep : Ascii.ascii) (s : string) : list string :=
  match s with
  | EmptyString => [EmptyString]
  | String c rest =>
      if Ascii.eqb c sep then EmptyString :: split sep rest
      else match split sep rest with
           | w :: ws => String c w :: ws
           | [] => [String c EmptyString]
           end
  end.

(** [s.split(sep, 1)]: split at the first separator only. *)
Fixpoint split1 (sep : Ascii.ascii) (s : string) : list string :=
  match s with
  | EmptyString => [EmptyString]
  | String c rest =>
      if Ascii.eqb c sep then [EmptyString; rest]
      else match split1 sep rest with
           | w :: ws => String c w :: ws
           | [] => [String c EmptyString]
           end
  end.

(** [s[n:]] *)
Fixpoint drop (n : nat) (s : string) : string :=
  match n, s with
  | O, _ => s
  | S _, EmptyString => EmptyString
  | S n', String _ rest => drop n' rest
  end.

(** [s.replace(c, new)] for a character [c]. *)
Fixpoint replace (c : Ascii.ascii) (new : string) (s : string) : string :=
  match s with
  | EmptyString => EmptyString
  | String d rest =>
      if Ascii.eqb d c then new +:+ replace c new rest
      else String d (replace c new rest)
  end.

(** The class [\s] of [re] on byte strings: space, tab, newline,
    carriage return, form feed and vertical tab. *)
Definition is_space (c : Ascii.ascii) : bool :=
  char_in c (String " " (String "009" (String "010" (String "013"
            (String "012" (String "011" EmptyString)))))).

(** [re.sub('[-\s]', '_', s)] *)
Fixpoint sub_dash_space (s : string) : string :=
  match s with
  | EmptyString => EmptyString
  | String c rest =>
      String (if Ascii.eqb c "-" || is_space c then "_"%char else c)
        (sub_dash_space rest)
  end.

(** [sep.join(words)] *)
Fixpoint join (sep : string) (words : list string) : string :=
  match words with
  | [] => EmptyString
  | [w] => w
  | w :: rest => w +:+ sep +:+ join sep rest
  end.

End PyStr.

(** ** [GuardianTab.from_ini] *)

Module FromIni.
Import PyStr.

(** [d[k] = v] on an [OrderedDict]: a key already present keeps its
    place and takes the new value, a new key goes to the end. *)
Fixpoint odict_set (d : list (Z * string)) (k : Z) (v : string)
  : list (Z * string) :=
  match d with
  | [] => [(k, v)]
  | kv :: rest =>
      if kv.1 =? k then (k, v) :: rest else kv :: odict_set rest k v
  end.

(** [d[k]]: [KeyError] for a key that is not present. *)
Fixpoint odict_get (d : list (Z * string)) (k : Z) : option string :=
  match d with
  | [] => None
  | kv :: rest => if kv.1 =? k then Some kv.2 else odict_get rest k
  end.

Section from_ini.
(** The builtin [int] on strings, [None] for [ValueError]. *)
Variable int_ : string → option Z.

(** The body of [for key, name in config.nditems(section)]: an item
    whose key is no integer is skipped; for the others the flag of the
    plot list tells whether the name begins with [*], and the name is
    stored without the asterisks at its ends. *)
Definition read_state (acc : list (Z * string) * list bool)
    (item : string * string) : option (list (Z * string) * list bool) :=
  match int_ item.1 with
  | None => Some acc
  | Some key =>
      c ← first_char item.2;
      Some (odict_set acc.1 key (strip "*" item.2),
            acc.2 ++ [negb (Ascii.eqb c "*")])
  end.

Definition read_states (items : list (string * string))
  : option (list (Z * string) * list bool) :=
  foldlM read_state ([], []) items.

(** [[
    try:
        new.transstates = map(
            int, config.get(section, 'transitions').split(','))
    except NoOptionError:
        new.transstates = new.grdstates.keys()
    ]]
    [transitions] is the value of the option, [None] without it. *)
Definition read_transstates (transitions : option string)
    (grdstates : list (Z * string)) : option (list Z) :=
  match transitions with
  | Some s => mapM int_ (split "," s)
  | None => Some grdstates.*1
  end.

(** [[l for i, l in enumerate(values) if plot[-i-1]]], the values
    numbered from [i]. *)
Fixpoint labels_from (i : Z) (values : list string) (plot : list bool)
  : option (list string) :=
  match values with
  | [] => Some []
  | l :: rest =>
      p ← Numpy.getitem plot (- i - 1);
      ls ← labels_from (i + 1) rest plot;
      Some (if p : bool then l :: ls else ls)
  end.

(** The attributes [from_ini] sets. *)
Record IniTab := mkIniTab {
  ifo : string;
  node : string;
  grdstates : list (Z * string);
  transstates : list Z;
  segmenttag : string;
  labels : list string;
  flags : list string;
  plot_tag : string;
  plot_title : string
}.

(** [from_ini], from the options [ifo] and [node], the items of the
    section and the option [transitions]; the check of the states of the
    parent class is left out. *)
Definition from_ini (ifo node : string) (items : list (string * string))
    (transitions : option string) : option IniTab :=
  sp ← read_states items;
  ts ← read_transstates transitions sp.1;
  tag ← Tags.segmenttag ifo node;
  ls ← labels_from 0 (reverse sp.1.*2) sp.2;
  fs ← mapM (λ name, pct_format tag [PStr name]) ls;
  ptag ← pct_format "GRD_%s_SEGMENTS" [PStr (sub_dash_space node)];
  title ← pct_format "%s Guardian %s state"
            [PStr ifo; PStr (replace "_" "\_" node)];
  Some (mkIniTab ifo node sp.1 ts tag ls fs ptag title).

End from_ini.

(** The attributes of the tab that [process] reads. *)
Definition to_tab (t : IniTab) : GuardianTab.Tab :=
  GuardianTab.mkTab (grdstates t) (segmenttag t).

End FromIni.

(** An instance of [int] for the examples: the value of a string of
    decimal digits. *)
Fixpoint digits_value (acc : Z) (s : string) : option Z :=
  match s with
  | EmptyString => Some acc
  | String c rest =>
      let n := Z.of_N (Ascii.N_of_ascii c) - 48 in
      if (0 <=? n) && (n <=? 9) then digits_value (10 * acc + n) rest
      else None
  end.

Definition decimal_int (s : string) : option Z :=
  match s with
  | EmptyString => None
  | _ => digits_value 0 s
  end.

(** ** Channel names *)

Module Channels.





End Channels.

(** ** The transitions table of [write_state_html] *)

Module StateTable.
Import FromIni.

(** [len([t for t in log if t[1] == bit2])] *)
Definition count_from (log : list Transition) (bit2 : Z) : nat :=
  length (filter (λ t : Transition, t.1.2 = bit2) log).

(** The text of a count cell: [str(count)], or [-] for no transition. *)
Definition count_cell (count : nat) : string :=
  match count with
  | O => "-"
  | S _ => str_of_int (Z.of_nat count)
  end.

(** The cell of row [i], state [bit], in column [j], state [bit2]. *)
Definition cell (transitions : gmap Z (list Transition)) (i : nat) (bit : Z)
    (j : nat) (bit2 : Z) : option string :=
  if decide (i = j) then Some "-"
  else log ← transitions !! bit; Some (count_cell (count_from log bit2)).

(** The cells of one row, in the order the page receives them: the name
    of the state, one cell for every configured state, the total. *)
Definition table_row (grdstates : list (Z * string))
    (transitions : gmap Z (list Transition)) (i : nat) (bit : Z)
  : option (list string) :=
  name ← odict_get grdstates bit;
  cells ← mapM id (imap (λ j kv, cell transitions i bit j kv.1) grdstates);
  log ← transitions !! bit;
  Some (PyStr.strip "*" name :: cells
        ++ [str_of_int (Z.of_nat (length log))]).

(** The rows of the table: [for i, bit in enumerate(self.transstates)]. *)
Definition table (grdstates : list (Z * string)) (transstates : list Z)
    (transitions : gmap Z (list Transition)) : option (list (list string)) :=
  mapM id (imap (table_row grdstates transitions) transstates).

End StateTable.

(** ** The keys of [GuardianStatePlot] *)

Module StatePlot.

(** The property [node]: [self.flags[0].split(' ', 1)[0][3:]]. *)
Definition node (flags : list string) : option string :=
  flag ← flags !! 0%nat;
  first ← PyStr.split1 " " flag !! 0%nat;
  Some (PyStr.drop 3 first).

(** The keys [process] hands to [get_segments] for a flag:
    [[flag, str(flag) + REQUESTSTUB, str(flag) + NOMINALSTUB]]. *)
Definition segment_keys (flag : string) : list string :=
  [flag; flag +:+ Tags.REQUESTSTUB; flag +:+ Tags.NOMINALSTUB].

(** The key of the liveness segments: [flag.split(' ', 1)[0] + ' OK']. *)
Definition ok_key (flag : string) : option string :=
  first ← PyStr.split1 " " flag !! 0%nat;
  Some (first +:+ " OK").

End StatePlot.

(** ** Notions of the further statements *)

(** The state [process] leaves on the scenario, from an empty store. *)
Definition scenario_state : GuardianTab.State :=
  default (GuardianTab.mkState ∅ ∅)
    (GuardianTab.process scenario_tab ∅
       [scenario] [scenario] [scenario] [scenario]).

(** The record [r1] is earlier than [r2]. *)
Definition earlier (r1 r2 : Transition) : Prop := r1.1.1 < r2.1.1.

(** The time just after the last sample of a series. *)
Definition span_end (s : TimeSeries) : Z :=
  x0 s + Z.of_nat (length (value s)) * dx s.

(** The observed-state series of the epochs have positive steps and
    follow one another in time without overlap. *)
Definition chronological
    (eps : list (TimeSeries * TimeSeries * TimeSeries * TimeSeries)) : Prop :=
  (∀ d, d ∈ eps → 0 < dx d.1.1.1) ∧
  ∀ (p q : nat) d1 d2, (p < q)%nat → eps !! p = Some d1 → eps !! q = Some d2 →
    span_end d1.1.1.1 <= x0 d2.1.1.1.

(** The items of a section whose key is an integer, with that
    integer. *)
Definition int_items (int_ : string → option Z)
    (items : list (string * string)) : list (Z * string) :=
  omap (λ item : string * string, k ← int_ item.1; Some (k, item.2)) items.

(** The name of a state is not marked with a leading [*]. *)
Definition displayed (name : string) : bool :=
  match name with
  | String c _ => negb (Ascii.eqb c "*")
  | EmptyString => true
  end.

(** A section of a configuration file: the options of the tab and
    three states, one of them marked. *)
Definition scenario_items : list (string * string) :=
  [("ifo", "H1"); ("node", "ISC_LOCK");
   ("10", "DOWN"); ("20", "*LOCKING"); ("30", "LOCKED*")].

(** The tab [from_ini] builds from [scenario_items] for the node
    [H1:ISC_LOCK]. *)
Definition scenario_ini : FromIni.IniTab :=
  FromIni.mkIniTab "H1" "ISC_LOCK"
    [(10, "DOWN"); (20, "LOCKING"); (30, "LOCKED")] [10; 20; 30]
    "H1:ISC_LOCK %s" ["LOCKED"; "DOWN"]
    ["H1:ISC_LOCK LOCKED"; "H1:ISC_LOCK DOWN"]
    "GRD_ISC_LOCK_SEGMENTS" "H1 Guardian ISC\_LOCK state".

(** The string has no space. *)
Definition space_free (s : string) : bool := negb (PyStr.char_in " " s).

(** A section whose state 40 has no name. *)
Definition nameless_items : list (string * string) :=
  scenario_items ++ [("40", "")].

(** The codes [2,1,3,1,2]: the state 1 is entered once from the state 2
    and once from the state 3, which [scenario_tab] does not list. *)
Definition from_unlisted : TimeSeries := mkTimeSeries 0 1 [2; 1; 3; 1; 2].

(** Two epochs of five samples, the second beginning where the first
    ends, each with two completed visits of the state 2. *)
Definition visits1 : TimeSeries := mkTimeSeries 0 1 [1; 2; 1; 2; 1].
Definition visits2 : TimeSeries := mkTimeSeries 5 1 [1; 2; 1; 2; 1].

(** * Properties *)

Import Numpy Detector Edges.

(** ** Arrays *)

Lemma getitem_nonneg {A : Type} (a : list A) (k : Z) :
  0 <= k → getitem a k = a !! Z.to_nat k.
Proof. intros Hk. unfold getitem. destruct (Z.leb_spec 0 k); [done|lia]. Qed.

Lemma times_lookup (s : TimeSeries) (n : nat) :
  (n < length (value s))%nat →
  times s !! n = Some (x0 s + Z.of_nat n * dx s).
Proof.
  intros Hn. unfold times. rewrite list_lookup_fmap.
  rewrite lookup_seq_lt; done.
Qed.

Lemma eq_scalar_cons (x : Z) (l : list Z) (v : Z) :
  eq_scalar (x :: l) v = (x =? v) :: eq_scalar l v.
Proof. done. Qed.

Lemma astype_int_cons (b : bool) (l : list bool) :
  astype_int (b :: l) = (if b then 1 else 0) :: astype_int l.
Proof. done. Qed.

Lemma diff_cons (x y : Z) (l : list Z) :
  diff (x :: y :: l) = (y - x) :: diff (y :: l).
Proof. done. Qed.

Lemma step_up (a b : bool) :
  ((if b then 1 else 0) - (if a then 1 else 0) =? 1) = negb a && b.
Proof. by destruct a, b. Qed.

Lemma step_down (a b : bool) :
  ((if b then 1 else 0) - (if a then 1 else 0) =? -1) = a && negb b.
Proof. by destruct a, b. Qed.

(** ** The edge lists as scans *)

Lemma transin_scan (v x : Z) (rest : list Z) (i : Z) :
  (λ k, k + 1) <$>
    nonzero_from i (eq_scalar (diff (astype_int (eq_scalar (x :: rest) v))) 1)
  = rising_from v (i + 1) x rest.
Proof.
  revert x i. induction rest as [|y rest IH]; intros x i; [done|].
  specialize (IH y (i + 1)).
  rewrite eq_scalar_cons, astype_int_cons in IH.
  rewrite 2!eq_scalar_cons, 2!astype_int_cons.
  rewrite diff_cons, eq_scalar_cons.
  cbn [nonzero_from rising_from]. rewrite step_up.
  destruct (negb (x =? v) && (y =? v)); rewrite ?fmap_cons, IH; done.
Qed.

Lemma transout_scan (v x : Z) (rest : list Z) (i : Z) :
  (λ k, k + 1) <$>
    nonzero_from i (eq_scalar (diff (astype_int (eq_scalar (x :: rest) v))) (-1))
  = falling_from v (i + 1) x rest.
Proof.
  revert x i. induction rest as [|y rest IH]; intros x i; [done|].
  specialize (IH y (i + 1)).
  rewrite eq_scalar_cons, astype_int_cons in IH.
  rewrite 2!eq_scalar_cons, 2!astype_int_cons.
  rewrite diff_cons, eq_scalar_cons.
  cbn [nonzero_from falling_from]. rewrite step_down.
  destruct ((x =? v) && negb (y =? v)); rewrite ?fmap_cons, IH; done.
Qed.

Lemma transin_eq (s : TimeSeries) (v : Z) :
  transin s v =
  match value s with
  | [] => []
  | x :: rest => rising_from v 1 x rest
  end.
Proof.
  unfold transin, instate, nonzero. destruct (value s) as [|x rest]; [done|].
  apply (transin_scan v x rest 0).
Qed.

Lemma transout_eq (s : TimeSeries) (v : Z) :
  transout s v =
  match value s with
  | [] => []
  | x :: rest => falling_from v 1 x rest
  end.
Proof.
  unfold transout, instate, nonzero. destruct (value s) as [|x rest]; [done|].
  apply (transout_scan v x rest 0).
Qed.

Lemma rising_from_spec (v : Z) (l : list Z) (i prev k : Z) :
  k ∈ rising_from v i prev l ↔
  ∃ (n : nat) (x : Z),
    k = i + Z.of_nat n ∧ (prev :: l) !! n = Some x ∧ x ≠ v ∧ l !! n = Some v.
Proof.
  revert i prev. induction l as [|y l IH]; intros i prev; cbn [rising_from].
  - split; [by intros ?%elem_of_nil|]. by intros (n & x & _ & _ & _ & ?).
  - assert (k ∈ rising_from v (i + 1) y l ↔
            ∃ (n : nat) (x : Z), k = i + Z.of_nat (S n) ∧
              (prev :: y :: l) !! S n = Some x ∧ x ≠ v ∧ (y :: l) !! S n = Some v)
      as Htail.
    { rewrite IH. split; intros (n & x & -> & ? & ? & ?); exists n, x;
        repeat split; try done; lia. }
    destruct (Z.eqb_spec prev v) as [->|Hp], (Z.eqb_spec y v) as [->|Hy];
      cbn [negb andb]; rewrite ?elem_of_cons, Htail.
    all: split.
    all: try (intros (n & x & ? & ? & ? & ?); exists (S n), x; done).
    all: try (intros (n & x & Hk & H1 & H2 & H3); destruct n as [|n];
              [cbn in H1, H3; congruence | by exists n, x]).
    + intros [->|(n & x & ? & ? & ? & ?)];
        [exists 0%nat, prev; repeat split; try done; lia | by exists (S n), x].
    + intros (n & x & Hk & H1 & H2 & H3). destruct n as [|n];
        [left; lia | right; by exists n, x].
Qed.

Lemma falling_from_spec (v : Z) (l : list Z) (i prev k : Z) :
  k ∈ falling_from v i prev l ↔
  ∃ (n : nat) (y : Z),
    k = i + Z.of_nat n ∧ (prev :: l) !! n = Some v ∧ l !! n = Some y ∧ y ≠ v.
Proof.
  revert i prev. induction l as [|y l IH]; intros i prev; cbn [falling_from].
  - split; [by intros ?%elem_of_nil|]. by intros (n & x & _ & _ & ? & _).
  - assert (k ∈ falling_from v (i + 1) y l ↔
            ∃ (n : nat) (z : Z), k = i + Z.of_nat (S n) ∧
              (prev :: y :: l) !! S n = Some v ∧ (y :: l) !! S n = Some z ∧ z ≠ v)
      as Htail.
    { rewrite IH. split; intros (n & x & -> & ? & ? & ?); exists n, x;
        repeat split; try done; lia. }
    destruct (Z.eqb_spec prev v) as [->|Hp], (Z.eqb_spec y v) as [->|Hy];
      cbn [negb andb]; rewrite ?elem_of_cons, Htail.
    all: split.
    all: try (intros (n & x & ? & ? & ? & ?); exists (S n), x; done).
    all: try (intros (n & x & Hk & H1 & H2 & H3); destruct n as [|n];
              [cbn in H1, H2; congruence | by exists n, x]).
    + intros [->|(n & x & ? & ? & ? & ?)];
        [exists 0%nat, y; repeat split; try done; lia | by exists (S n), x].
    + intros (n & x & Hk & H1 & H2 & H3). destruct n as [|n];
        [left; lia | right; by exists n, x].
Qed.

(** An entry index is the index of a sample equal to [v] whose
    predecessor differs from [v]. *)
Lemma transin_spec (s : TimeSeries) (v k : Z) :
  k ∈ transin s v ↔
  ∃ (n : nat) (x : Z),
    k = Z.of_nat (S n) ∧ value s !! n = Some x ∧ x ≠ v ∧
    value s !! S n = Some v.
Proof.
  rewrite transin_eq. destruct (value s) as [|x0 rest].
  - split; [by intros ?%elem_of_nil|]. by intros (n & x & _ & ? & _).
  - rewrite rising_from_spec.
    split; intros (n & x & -> & ? & ? & ?); exists n, x; repeat split;
      try done; lia.
Qed.

(** An exit index is the index of a sample different from [v] whose
    predecessor equals [v]. *)
Lemma transout_spec (s : TimeSeries) (v k : Z) :
  k ∈ transout s v ↔
  ∃ (n : nat) (y : Z),
    k = Z.of_nat (S n) ∧ value s !! n = Some v ∧
    value s !! S n = Some y ∧ y ≠ v.
Proof.
  rewrite transout_eq. destruct (value s) as [|x0 rest].
  - split; [by intros ?%elem_of_nil|]. by intros (n & x & _ & ? & _).
  - rewrite falling_from_spec.
    split; intros (n & x & -> & ? & ? & ?); exists n, x; repeat split;
      try done; lia.
Qed.

(** ** The loop of the detector *)

Lemma record_transition_ok (s : TimeSeries) (log : list Transition)
    (ij : Z * Z) :
  1 <= ij.1 < Z.of_nat (length (value s)) →
  0 <= ij.2 < Z.of_nat (length (value s)) →
  record_transition s log ij = Some (log ++ [record_of s ij]).
Proof.
  intros Hi Hj. unfold record_transition, record_of.
  rewrite !getitem_nonneg by lia.
  rewrite (times_lookup s (Z.to_nat ij.1)) by lia.
  rewrite Z2Nat.id by lia. cbn [mbind option_bind].
  rewrite !list_lookup_lookup_total_lt by lia. done.
Qed.

Lemma foldlM_records (s : TimeSeries) (pairs : list (Z * Z))
    (log : list Transition) :
  Forall (in_range s) pairs →
  foldlM (record_transition s) log pairs = Some (log ++ (record_of s <$> pairs)).
Proof.
  intros Hall. revert log.
  induction Hall as [|ij pairs [Hi Hj] _ IH]; intros log; cbn [foldlM].
  - by rewrite app_nil_r.
  - rewrite record_transition_ok by done. cbn [mbind option_bind].
    rewrite IH, <- app_assoc. done.
Qed.

Lemma zip_in_range (s : TimeSeries) (v : Z) :
  Forall (in_range s) (zip (transin s v) (transout s v)).
Proof.
  apply Forall_forall. intros [i j] Hij.
  pose proof (elem_of_zip_l _ _ _ _ Hij) as Hi.
  pose proof (elem_of_zip_r _ _ _ _ Hij) as Hj.
  apply transin_spec in Hi as (n & x & -> & _ & _ & Hn%lookup_lt_Some).
  apply transout_spec in Hj as (m & y & -> & _ & Hm%lookup_lt_Some & _).
  unfold in_range. cbn [fst snd]. lia.
Qed.

(** The loop never raises: it appends the records of [detections]. *)
Lemma state_transitions_eq (s : TimeSeries) (v : Z) (log : list Transition) :
  state_transitions s v log = Some (log ++ detections s v).
Proof. apply foldlM_records, zip_in_range. Qed.

(** ** String formatting and tags *)

Lemma append_cons (c : Ascii.ascii) (s t : string) :
  String c s +:+ t = String c (s +:+ t).
Proof. done. Qed.

Lemma append_empty_r (s : string) : s +:+ "" = s.
Proof. induction s as [|c s IH]; [done|]. by rewrite append_cons, IH. Qed.

Lemma append_assoc (a b c : string) : (a +:+ b) +:+ c = a +:+ (b +:+ c).
Proof. induction a as [|x a IH]; [done|]. by rewrite !append_cons, IH. Qed.

(** A literal prefix without [%] is copied to the output. *)
Lemma pct_format_literal (s fmt : string) (args : list pyval) :
  percent_free s = true →
  pct_format (s +:+ fmt) args = String.append s <$> pct_format fmt args.
Proof.
  induction s as [|c s IH]; intros Hs.
  - change ("" +:+ fmt) with fmt. by destruct (pct_format fmt args).
  - cbn in Hs. apply andb_true_iff in Hs as [Hc Hs].
    apply negb_true_iff in Hc. rewrite append_cons. cbn [pct_format].
    rewrite Hc, (IH Hs). by destruct (pct_format fmt args).
Qed.

Lemma segmenttag_eq (ifo node : string) :
  Tags.segmenttag ifo node = Some (ifo +:+ ":" +:+ node +:+ " %s").
Proof. done. Qed.

Lemma format_segmenttag (ifo node name : string) :
  percent_free ifo = true → percent_free node = true →
  pct_format (ifo +:+ ":" +:+ node +:+ " %s") [PStr name]
  = Some (ifo +:+ ":" +:+ node +:+ " " +:+ name).
Proof.
  intros Hi Hn. rewrite pct_format_literal by done.
  change (":" +:+ node +:+ " %s") with (String ":" (node +:+ " %s")).
  cbn [pct_format]. change (Ascii.eqb ":" "%") with false. cbn match.
  rewrite pct_format_literal by done.
  change (pct_format " %s" [PStr name]) with (Some (" " +:+ name +:+ "")).
  by rewrite append_empty_r.
Qed.

Lemma tags_ok (tab : GuardianTab.Tab) (name : string) :
  tab_wf tab →
  ∃ t, Tags.active_tag (GuardianTab.segmenttag tab) name = Some t ∧
       Tags.request_tag (GuardianTab.segmenttag tab) name
         = Some (t +:+ Tags.REQUESTSTUB) ∧
       Tags.nominal_tag (GuardianTab.segmenttag tab) name
         = Some (t +:+ Tags.NOMINALSTUB).
Proof.
  intros (_ & ifo & node & Hi & Hn & Htag).
  rewrite segmenttag_eq in Htag. injection Htag as <-.
  eexists. unfold Tags.active_tag, Tags.request_tag, Tags.nominal_tag.
  rewrite format_segmenttag by done. done.
Qed.

(** ** The transition logs after [process] *)

Section process_logs.
Import GuardianTab.
Context (tab : Tab) (Hwf : tab_wf tab).

Lemma process_state_ok (sd rd nd : TimeSeries) (e : Epoch)
    (item : Z * string) (log : list Transition) :
  ep_transitions e !! item.1 = Some log →
  ∃ e', process_state tab sd rd nd e item = Some e' ∧
        ep_transitions e' =
          <[item.1 := log ++ detections sd item.1]> (ep_transitions e).
Proof.
  intros Hlog. unfold process_state.
  destruct (tags_ok tab item.2 Hwf) as (t & -> & -> & ->).
  rewrite Hlog. cbn [mbind option_bind].
  rewrite state_transitions_eq. cbn [mbind option_bind].
  eexists. split; [done|]. done.
Qed.

Lemma process_states_ok (sd rd nd : TimeSeries) (items : list (Z * string))
    (e : Epoch) :
  NoDup items.*1 →
  (∀ v, v ∈ items.*1 → is_Some (ep_transitions e !! v)) →
  ∃ e', foldlM (process_state tab sd rd nd) e items = Some e' ∧
        ∀ v, ep_transitions e' !! v =
             if decide (v ∈ items.*1)
             then (λ log, log ++ detections sd v) <$> ep_transitions e !! v
             else ep_transitions e !! v.
Proof.
  revert e. induction items as [|item items IH]; intros e Hnd Hdom.
  - exists e. split; [done|]. intros v. rewrite decide_False; [done|].
    by intros ?%elem_of_nil.
  - rewrite fmap_cons in Hnd, Hdom. apply NoDup_cons in Hnd as [Hnotin Hnd].
    destruct (Hdom item.1) as [log Hlog]; [by left|].
    destruct (process_state_ok sd rd nd e item log Hlog) as (e1 & He1 & HT1).
    destruct (IH e1 Hnd) as (e' & He' & HT').
    { intros v Hv. rewrite HT1.
      destruct (decide (item.1 = v)) as [<-|Hne];
        [by rewrite lookup_insert_eq | rewrite lookup_insert_ne by done].
      apply Hdom. by right. }
    exists e'. cbn [foldlM]. rewrite He1. cbn [mbind option_bind].
    split; [done|]. intros v. rewrite HT', HT1, fmap_cons.
    destruct (decide (item.1 = v)) as [<-|Hne].
    + rewrite decide_False by done. rewrite decide_True by left.
      by rewrite lookup_insert_eq, Hlog.
    + rewrite lookup_insert_ne by done.
      destruct (decide (v ∈ items.*1)) as [Hin|Hnin].
      * by rewrite decide_True by by right.
      * rewrite decide_False; [done|].
        intros [?|?]%elem_of_cons; congruence.
Qed.

Lemma process_epoch_ok (st : State)
    (data : TimeSeries * TimeSeries * TimeSeries * TimeSeries) :
  (∀ v, v ∈ (grdstates tab).*1 → is_Some (transitions st !! v)) →
  ∃ st', process_epoch tab st data = Some st' ∧
         ∀ v, transitions st' !! v =
              if decide (v ∈ (grdstates tab).*1)
              then (λ log, log ++ detections data.1.1.1 v)
                     <$> transitions st !! v
              else transitions st !! v.
Proof.
  intros Hdom. destruct data as [[[sd rd] nd] od]. unfold process_epoch.
  destruct (process_states_ok sd rd nd (grdstates tab)
              (mkEpoch (transitions st) ∅ ∅ ∅)) as (e' & -> & HT');
    [apply Hwf | done |].
  cbn [mbind option_bind]. unfold Tags.ok_tag.
  destruct (tags_ok tab "OK" Hwf) as (t & Ht & _).
  unfold Tags.active_tag in Ht. rewrite Ht. cbn [mbind option_bind].
  eexists. split; [done|]. done.
Qed.

Lemma process_epochs_ok
    (eps : list (TimeSeries * TimeSeries * TimeSeries * TimeSeries))
    (st : State) :
  (∀ v, v ∈ (grdstates tab).*1 → is_Some (transitions st !! v)) →
  ∃ st', foldlM (process_epoch tab) st eps = Some st' ∧
         ∀ v, v ∈ (grdstates tab).*1 →
              transitions st' !! v =
              (λ log, log ++ concat ((λ d, detections d.1.1.1 v) <$> eps))
                <$> transitions st !! v.
Proof.
  revert st. induction eps as [|d eps IH]; intros st Hdom.
  - exists st. split; [done|]. intros v Hv.
    destruct (Hdom v Hv) as [log ->]. cbn. by rewrite app_nil_r.
  - destruct (process_epoch_ok st d Hdom) as (st1 & Hst1 & HT1).
    destruct (IH st1) as (st' & Hst' & HT').
    { intros v Hv. rewrite HT1, decide_True by done.
      destruct (Hdom v Hv) as [log ->]. done. }
    exists st'. cbn [foldlM]. rewrite Hst1. cbn [mbind option_bind].
    split; [done|]. intros v Hv.
    rewrite (HT' v Hv), HT1, decide_True by done.
    destruct (Hdom v Hv) as [log ->]. cbn. by rewrite app_assoc.
Qed.

Lemma empty_transitions_lookup (v : Z) :
  v ∈ (grdstates tab).*1 → empty_transitions tab !! v = Some [].
Proof.
  unfold empty_transitions. induction (grdstates tab) as [|kv l IH]; intros Hv.
  - by apply elem_of_nil in Hv.
  - rewrite !fmap_cons in *. cbn [list_to_map foldr].
    destruct (decide (kv.1 = v)) as [<-|Hne].
    + by rewrite lookup_insert_eq.
    + rewrite lookup_insert_ne by done. apply IH.
      apply elem_of_cons in Hv as [?|?]; [congruence|done].
Qed.

(** [process] returns, and the log of every configured state holds the
    records of the epochs in their order. *)
Lemma process_ok (segments : gmap string DataQualityFlag)
    (grddata reqdata nomdata okdata : list TimeSeries) :
  ∃ st, process tab segments grddata reqdata nomdata okdata = Some st ∧
        ∀ v, v ∈ (grdstates tab).*1 →
             transitions st !! v =
             Some (concat ((λ d, detections d.1.1.1 v)
                     <$> epochs grddata reqdata nomdata okdata)).
Proof.
  unfold process.
  destruct (process_epochs_ok (epochs grddata reqdata nomdata okdata)
              (mkState (empty_transitions tab) segments)) as (st & Hst & HT).
  { intros v Hv. cbn. rewrite empty_transitions_lookup; done. }
  exists st. split; [done|]. intros v Hv. rewrite (HT v Hv). cbn.
  by rewrite empty_transitions_lookup.
Qed.
End process_logs.

(** ** Counting entries and exits *)

Lemma last_default_cons (prev y : Z) (l : list Z) :
  default prev (last (y :: l)) = default y (last l).
Proof. rewrite last_cons. by destruct (last l). Qed.

(** Entries and exits alternate: their numbers differ by what the first
    and the last sample say. *)
Lemma rising_falling_count (v : Z) (l : list Z) (i prev : Z) :
  (length (rising_from v i prev l) + (if (prev =? v)%Z then 1 else 0)
   = length (falling_from v i prev l)
     + (if (default prev (last l) =? v)%Z then 1 else 0))%nat.
Proof.
  revert i prev. induction l as [|y l IH]; intros i prev.
  - cbn. lia.
  - rewrite last_default_cons. cbn [rising_from falling_from].
    specialize (IH (i + 1) y).
    destruct (prev =? v), (y =? v); cbn [negb andb length] in *; lia.
Qed.

Lemma detections_length (s : TimeSeries) (v : Z) :
  length (detections s v)
  = (length (transin s v) `min` length (transout s v))%nat.
Proof. unfold detections. by rewrite length_fmap, length_zip_with. Qed.


Lemma sum_list_with_add {A : Type} (f g : A → nat) (l : list A) :
  sum_list_with (λ a, f a + g a)%nat l
  = (sum_list_with f l + sum_list_with g l)%nat.
Proof. induction l as [|a l IH]; cbn; [done|]. rewrite IH. lia. Qed.

Lemma sum_list_with_ext {A : Type} (f g : A → nat) (l : list A) :
  (∀ a, a ∈ l → f a = g a) → sum_list_with f l = sum_list_with g l.
Proof.
  induction l as [|a l IH]; intros Hfg; cbn; [done|].
  rewrite (Hfg a) by left. rewrite IH; [done|]. intros b Hb. apply Hfg. by right.
Qed.

Lemma sum_list_with_zero {A : Type} (f : A → nat) (l : list A) :
  (∀ a, a ∈ l → f a = 0%nat) → sum_list_with f l = 0%nat.
Proof.
  induction l as [|a l IH]; intros Hf; cbn; [done|].
  rewrite (Hf a) by left. rewrite IH; [done|]. intros b Hb. apply Hf. by right.
Qed.




Lemma sum_list_with_fmap {A B : Type} (f : B → nat) (g : A → B) (l : list A) :
  sum_list_with f (g <$> l) = sum_list_with (λ a, f (g a)) l.
Proof. induction l as [|a l IH]; cbn; [done|]. by rewrite IH. Qed.


Lemma scenario_tab_wf : tab_wf scenario_tab.
Proof.
  split.
  - cbn. apply NoDup_cons. split; [|apply NoDup_singleton].
    by intros ?%list_elem_of_singleton.
  - by exists "X1", "NODE".
Qed.

(** ** The total of the transition logs (claim C3) *)




(** ** Pairing entries with exits *)

(** In a series that does not begin in [v] the [k]-th exit ends the run
    of the [k]-th entry; with a run in progress, its entry comes first. *)
Lemma zip_run_pairs (v : Z) (l : list Z) (i prev : Z) :
  ((prev =? v) = false →
   zip (rising_from v i prev l) (falling_from v i prev l)
   = run_pairs v i prev None l) ∧
  ((prev =? v) = true → ∀ a,
   zip (a :: rising_from v i prev l) (falling_from v i prev l)
   = run_pairs v i prev (Some a) l).
Proof.
  revert i prev. induction l as [|y l IH]; intros i prev.
  - split; intros; done.
  - destruct (IH (i + 1) y) as [IH1 IH2].
    cbn [rising_from falling_from run_pairs].
    split; intros Hp; rewrite Hp; cbn [negb andb];
      destruct (y =? v) eqn:Hy; cbn [negb andb].
    + by apply IH2.
    + by apply IH1.
    + intros a. by apply IH2.
    + intros a. cbn. f_equal. by apply IH1.
Qed.

Lemma run_pairs_inside (v : Z) (l : list Z) (i prev a : Z) (m : nat) (y : Z) :
  (prev =? v) = true →
  (∀ k, (k < m)%nat → l !! k = Some v) →
  l !! m = Some y → y ≠ v →
  (a, i + Z.of_nat m) ∈ run_pairs v i prev (Some a) l.
Proof.
  revert i prev m. induction l as [|z l IH]; intros i prev m Hp Hrun Hm Hy;
    [done|].
  cbn [run_pairs]. rewrite Hp. destruct m as [|m].
  - cbn in Hm. injection Hm as ->.
    destruct (Z.eqb_spec y v) as [?|_]; [done|].
    replace (i + Z.of_nat 0) with i by lia. left.
  - assert (z = v) as -> by (specialize (Hrun 0%nat); cbn in Hrun;
      injection Hrun; [done|lia]).
    rewrite Z.eqb_refl.
    replace (i + Z.of_nat (S m)) with (i + 1 + Z.of_nat m) by lia.
    apply IH; [apply Z.eqb_refl| |done|done].
    intros k Hk. apply (Hrun (S k)). lia.
Qed.

Lemma run_pairs_suffix (v : Z) (l : list Z) (i prev y : Z) (open : option Z)
    (p : Z * Z) :
  (∀ open', p ∈ run_pairs v (i + 1) y open' l) →
  p ∈ run_pairs v i prev open (y :: l).
Proof.
  intros Hp. cbn [run_pairs].
  destruct (prev =? v), (y =? v), open; try apply Hp; right; apply Hp.
Qed.

(** A run that is entered from [x ≠ v] at the position [n] and left at
    the position [m] yields its pair, whatever came before. *)
Lemma run_pairs_complete (v : Z) (l : list Z) (i prev : Z) (open : option Z)
    (n m : nat) (x y : Z) :
  (prev :: l) !! n = Some x → x ≠ v →
  (∀ k, (n ≤ k < m)%nat → l !! k = Some v) → (n < m)%nat →
  l !! m = Some y → y ≠ v →
  (i + Z.of_nat n, i + Z.of_nat m) ∈ run_pairs v i prev open l.
Proof.
  revert i prev open n m.
  induction l as [|z l IH]; intros i prev open n m Hn Hx Hrun Hnm Hm Hy;
    [done|].
  destruct m as [|m]; [lia|]. destruct n as [|n].
  - cbn in Hn. injection Hn as ->.
    assert (z = v) as -> by (specialize (Hrun 0%nat); cbn in Hrun;
      injection Hrun; [done|lia]).
    cbn [run_pairs]. destruct (Z.eqb_spec x v) as [?|_]; [done|].
    rewrite Z.eqb_refl.
    replace (i + Z.of_nat 0) with i by lia.
    replace (i + Z.of_nat (S m)) with (i + 1 + Z.of_nat m) by lia.
    apply run_pairs_inside with (y := y); [apply Z.eqb_refl| |done|done].
    intros k Hk. apply (Hrun (S k)). lia.
  - apply run_pairs_suffix. intros open'.
    replace (i + Z.of_nat (S n)) with (i + 1 + Z.of_nat n) by lia.
    replace (i + Z.of_nat (S m)) with (i + 1 + Z.of_nat m) by lia.
    apply IH; try done; [|lia].
    intros k Hk. apply (Hrun (S k)). lia.
Qed.

(** In a series that does not begin in [v], every run of [v] that is
    entered after [n] from [f] and left at [j] into [t] has its record. *)
Lemma detections_complete (s : TimeSeries) (v : Z) (n j : nat) (f t : Z) :
  head (value s) ≠ Some v →
  value s !! n = Some f → f ≠ v →
  (∀ k, (n < k < j)%nat → value s !! k = Some v) → (S n < j)%nat →
  value s !! j = Some t → t ≠ v →
  (x0 s + Z.of_nat (S n) * dx s, f, t) ∈ detections s v.
Proof.
  intros Hhead Hn Hf Hrun Hnj Hj Ht.
  assert ((Z.of_nat (S n), Z.of_nat j)
          ∈ zip (transin s v) (transout s v)) as Hin.
  { rewrite transin_eq, transout_eq.
    destruct (value s) as [|x rest] eqn:Hs; [done|].
    cbn in Hhead.
    assert ((x =? v) = false) as Hxv by (apply Z.eqb_neq; congruence).
    rewrite (proj1 (zip_run_pairs v rest 1 x) Hxv).
    destruct j as [|j]; [lia|].
    replace (Z.of_nat (S n)) with (1 + Z.of_nat n) by lia.
    replace (Z.of_nat (S j)) with (1 + Z.of_nat j) by lia.
    apply run_pairs_complete with (x := f) (y := t); try done; [|lia].
    intros k Hk. apply (Hrun (S k)). lia. }
  unfold detections.
  apply (list_elem_of_fmap_2 (record_of s)) in Hin.
  unfold record_of in Hin. cbn [fst snd] in Hin.
  replace (Z.to_nat (Z.of_nat (S n) - 1)) with n in Hin by lia.
  rewrite Nat2Z.id in Hin.
  by rewrite (list_lookup_total_correct _ _ _ Hn),
    (list_lookup_total_correct _ _ _ Hj) in Hin.
Qed.

Lemma run_cons (v z : Z) (l : list Z) (m : nat) :
  (z =? v) = true →
  (∀ k, (k < m)%nat → l !! k = Some v) →
  ∀ k, (k < S m)%nat → (z :: l) !! k = Some v.
Proof.
  intros Hz Hrun [|k] Hk; [cbn; f_equal; by apply Z.eqb_eq|].
  apply Hrun. lia.
Qed.

Lemma run_shift (v z : Z) (l : list Z) (n m : nat) :
  (∀ k, (n ≤ k < m)%nat → l !! k = Some v) →
  ∀ k, (S n ≤ k < S m)%nat → (z :: l) !! k = Some v.
Proof. intros Hrun [|k] Hk; [lia|]. apply Hrun. lia. Qed.

(** Every pair of the scan is a run left at its second index, begun
    either before the scan or at its first index. *)
Lemma run_pairs_sound (v : Z) (l : list Z) (i prev : Z) (open : option Z)
    (a b : Z) :
  (a, b) ∈ run_pairs v i prev open l →
  ∃ (m : nat) (y : Z), b = i + Z.of_nat m ∧ l !! m = Some y ∧ y ≠ v ∧
    ((open = Some a ∧ (prev =? v) = true ∧
      ∀ k, (k < m)%nat → l !! k = Some v) ∨
     (∃ (n : nat) (x : Z), a = i + Z.of_nat n ∧ (n < m)%nat ∧
        (prev :: l) !! n = Some x ∧ x ≠ v ∧
        ∀ k, (n ≤ k < m)%nat → l !! k = Some v)).
Proof.
  revert i prev open. induction l as [|z l IH]; intros i prev open Hab;
    [by apply elem_of_nil in Hab|].
  cbn [run_pairs] in Hab.
  assert (∀ open', (a, b) ∈ run_pairs v (i + 1) z open' l →
    ∃ (m : nat) (y : Z), b = i + Z.of_nat (S m) ∧ (z :: l) !! S m = Some y ∧
      y ≠ v ∧
      ((open' = Some a ∧ (z =? v) = true ∧
        ∀ k, (k < S m)%nat → (z :: l) !! k = Some v) ∨
       (∃ (n : nat) (x : Z), a = i + Z.of_nat (S n) ∧ (S n < S m)%nat ∧
          (prev :: z :: l) !! S n = Some x ∧ x ≠ v ∧
          ∀ k, (S n ≤ k < S m)%nat → (z :: l) !! k = Some v))) as Htail.
  { intros open' Hin.
    destruct (IH _ _ _ Hin) as (m & y & -> & Hm & Hy & Hcase).
    exists m, y. repeat split; [lia|done|done|].
    destruct Hcase as [(Ho & Hz & Hrun)|(n & x & -> & Hnm & Hn & Hx & Hrun)].
    - left. repeat split; [done|done|by apply run_cons].
    - right. exists n, x. repeat split; [lia|lia|done|done|by apply run_shift]. }
  destruct (prev =? v) eqn:Hp, (z =? v) eqn:Hz.
  - destruct (Htail _ Hab) as (m & y & ? & ? & ? & [(? & ? & ?)|Hsnd]);
      exists (S m), y; repeat split; try done; [by left|].
    destruct Hsnd as (n & x & ? & ? & ? & ? & ?). right. by exists (S n), x.
  - assert ((a, b) = (a, i) ∧ open = Some a ∨
            (a, b) ∈ run_pairs v (i + 1) z None l) as [[Heq Ho]|Hin].
    { destruct open as [a0|]; [|by right].
      apply elem_of_cons in Hab as [Heq|?]; [left|by right].
      by injection Heq as -> ->. }
    + injection Heq as ->. exists 0%nat, z.
      repeat split; [lia|by apply Z.eqb_neq|]. left.
      repeat split; [done|]. intros k Hk. lia.
    + destruct (Htail _ Hin) as (m & y & ? & ? & ? & [(? & ? & ?)|Hsnd]);
        [done|].
      exists (S m), y. repeat split; try done.
      destruct Hsnd as (n & x & ? & ? & ? & ? & ?). right. by exists (S n), x.
  - destruct (Htail _ Hab) as (m & y & ? & ? & ? & [(Ho & _ & Hrun)|Hsnd]);
      exists (S m), y; repeat split; try done; right.
    + injection Ho as <-. exists 0%nat, prev.
      repeat split; [lia|lia|by apply Z.eqb_neq|].
      intros k Hk. apply Hrun. lia.
    + destruct Hsnd as (n & x & ? & ? & ? & ? & ?). by exists (S n), x.
  - destruct (Htail _ Hab) as (m & y & ? & ? & ? & [(? & ? & ?)|Hsnd]);
      [done|].
    exists (S m), y. repeat split; try done.
    destruct Hsnd as (n & x & ? & ? & ? & ? & ?). right. by exists (S n), x.
Qed.

(** In a series that does not begin in [v], every record belongs to a
    run of [v] that is entered after [n] from [f] and left at [j] into
    [t]. *)
Lemma detections_sound (s : TimeSeries) (v : Z) (r : Transition) :
  head (value s) ≠ Some v →
  r ∈ detections s v →
  ∃ (n j : nat) (f t : Z),
    r = (x0 s + Z.of_nat (S n) * dx s, f, t) ∧
    value s !! n = Some f ∧ f ≠ v ∧
    (∀ k, (n < k < j)%nat → value s !! k = Some v) ∧ (S n < j)%nat ∧
    value s !! j = Some t ∧ t ≠ v.
Proof.
  intros Hhead Hr. unfold detections in Hr.
  apply list_elem_of_fmap_1 in Hr as ([a b] & -> & Hab).
  rewrite transin_eq, transout_eq in Hab.
  destruct (value s) as [|x rest] eqn:Hs; [by apply elem_of_nil in Hab|].
  cbn in Hhead.
  assert ((x =? v) = false) as Hxv by (apply Z.eqb_neq; congruence).
  rewrite (proj1 (zip_run_pairs v rest 1 x) Hxv) in Hab.
  apply run_pairs_sound in Hab
    as (m & y & -> & Hm & Hy & [(? & _)|(n & f & -> & Hnm & Hn & Hf & Hrun)]);
    [done|].
  exists n, (S m), f, y. unfold record_of. cbn [fst snd].
  replace (Z.to_nat (1 + Z.of_nat n - 1)) with n by lia.
  replace (Z.to_nat (1 + Z.of_nat m)) with (S m) by lia.
  rewrite Hs, (list_lookup_total_correct _ _ _ Hn).
  rewrite (list_lookup_total_correct (x :: rest) (S m) y) by done.
  repeat split; try done; [f_equal; f_equal; lia| |lia].
  intros [|k] Hk; [lia|]. apply Hrun. lia.
Qed.

(** In a series that does not begin in [v], a run of [v] that is entered
    after [n] and lasts to the end of the series is paired with no exit:
    it has no record. *)
Lemma open_run_excluded (s : TimeSeries) (v : Z) (n : nat) :
  head (value s) ≠ Some v →
  (∀ k, (n < k < length (value s))%nat → value s !! k = Some v) →
  ∀ j, (Z.of_nat (S n), j) ∉ zip (transin s v) (transout s v).
Proof.
  intros Hhead Hopen j Hin. rewrite transin_eq, transout_eq in Hin.
  destruct (value s) as [|x rest] eqn:Hs; [by apply elem_of_nil in Hin|].
  cbn in Hhead.
  assert ((x =? v) = false) as Hxv by (apply Z.eqb_neq; congruence).
  rewrite (proj1 (zip_run_pairs v rest 1 x) Hxv) in Hin.
  apply run_pairs_sound in Hin
    as (m & y & -> & Hm & Hy & [(? & _)|(n' & f & Hn' & Hnm & _)]);
    [done|].
  assert (n' = n) as -> by lia.
  pose proof (lookup_lt_Some _ _ _ Hm) as Hlen.
  assert (Some y = Some v) as [= ?]; [|done].
  rewrite <- Hm. apply (Hopen (S m)). cbn [length]. lia.
Qed.

(** ** Entry indices (claim C10) *)

(** C10.  Every entry index of the detector is at least 1 and inside the
    series, so the lookup of the from-code at the index before it reads
    the sample just before the entry and never wraps to the end of the
    series; the index 0 is never an entry, and every record of the loop
    stems from such an entry, so that a run beginning at the first sample
    has no record of its own. *)
Theorem entry_index_positive (s : TimeSeries) (v : Z) :
  (∀ i, i ∈ transin s v →
     1 <= i < Z.of_nat (length (value s)) ∧
     ∃ x, getitem (value s) (i - 1) = Some x ∧
          value s !! Z.to_nat (i - 1) = Some x ∧ x ≠ v) ∧
  (0 ∉ transin s v) ∧
  (∀ log r, state_transitions s v [] = Some log → r ∈ log →
     ∃ i j, (i, j) ∈ zip (transin s v) (transout s v) ∧ 1 <= i ∧
            r.1.1 = x0 s + i * dx s ∧
            getitem (value s) (i - 1) = Some r.1.2).
Proof.
  assert (∀ i, i ∈ transin s v →
     1 <= i < Z.of_nat (length (value s)) ∧
     ∃ x, getitem (value s) (i - 1) = Some x ∧
          value s !! Z.to_nat (i - 1) = Some x ∧ x ≠ v) as Hentry.
  { intros i (n & x & -> & Hn & Hx & Hv%lookup_lt_Some)%transin_spec.
    split; [lia|]. exists x. rewrite getitem_nonneg by lia.
    replace (Z.to_nat (Z.of_nat (S n) - 1)) with n by lia. done. }
  split; [done|]. split.
  - intros H0%Hentry. lia.
  - intros log r Hlog Hr. rewrite state_transitions_eq in Hlog.
    injection Hlog as <-. cbn [app] in Hr. unfold detections in Hr.
    apply list_elem_of_fmap_1 in Hr as ([i j] & -> & Hij).
    exists i, j. split; [done|].
    destruct (Hentry i (elem_of_zip_l _ _ _ _ Hij))
      as (Hi & x & Hget & Hx & _).
    repeat split; [lia|]. unfold record_of. cbn [fst snd].
    by rewrite (list_lookup_total_correct _ _ _ Hx).
Qed.

Lemma entry_index_positive_witness :
  1 <= 3 < Z.of_nat (length (value scenario)) ∧
  ∃ x, getitem (value scenario) (3 - 1) = Some x ∧
       value scenario !! Z.to_nat (3 - 1) = Some x ∧ x ≠ 2.
Proof.
  apply (proj1 (entry_index_positive scenario 2) 3).
  change (3 ∈ [3]). left.
Defined.

(** ** The run open at the end of the series (claim C5) *)

(** C5, at the series [1,1,1,2,2,1,1] and the state 1.  The loop returns;
    the run of state 1 that is entered at index 5 holds the samples 5 and
    6, the last of the series, and is never left; the log all the same
    holds a record for it, at time 5, whose to-code was read at the exit
    index 3 of the earlier run. *)
Theorem open_run_recorded :
  state_transitions scenario 1 [] = Some [(5, 2, 2)] ∧
  length (value scenario) = 7%nat ∧
  value scenario !! 4%nat = Some 2 ∧
  value scenario !! 5%nat = Some 1 ∧
  value scenario !! 6%nat = Some 1 ∧
  zip (transin scenario 1) (transout scenario 1) = [(5, 3)].
Proof. repeat split. Qed.

(** ** The scenario of the specification (claim C1) *)

(** C1.  On the series [1,1,1,2,2,1,1] at 1 Hz from [t = 0], whatever the
    other channels and the store hold, [process] logs for state 2 the one
    transition [(3, 1, 1)] and for state 1 the one transition [(5, 2, 2)],
    the entry index 5 being paired with the exit index 3. *)
Theorem scenario_transitions (segments : gmap string DataQualityFlag)
    (rdata ndata okdata : TimeSeries) :
  ∃ st, GuardianTab.process scenario_tab segments
          [scenario] [rdata] [ndata] [okdata] = Some st ∧
        GuardianTab.transitions st !! 2 = Some [(3, 1, 1)] ∧
        GuardianTab.transitions st !! 1 = Some [(5, 2, 2)] ∧
        zip (transin scenario 2) (transout scenario 2) = [(3, 5)] ∧
        zip (transin scenario 1) (transout scenario 1) = [(5, 3)].
Proof.
  destruct (process_ok scenario_tab scenario_tab_wf segments
              [scenario] [rdata] [ndata] [okdata]) as (st & Hst & HT).
  exists st. split; [done|].
  rewrite !HT by (cbn; set_solver). done.
Qed.

(** ** Transitions and their codes (claim C4) *)

Lemma elem_of_concat {A : Type} (x : A) (l : list A) (ls : list (list A)) :
  x ∈ l → l ∈ ls → x ∈ concat ls.
Proof.
  intros Hx Hl. induction Hl as [l ls|l l' ls _ IH]; cbn [concat];
    apply elem_of_app; [by left|right; auto].
Qed.

Lemma render_code_eq (gs : list (Z * string)) (c : Z) :
  GuardianTab.render_code gs c
  = Some (GuardianTab.state_label gs c +:+ " [" +:+ str_of_int c +:+ "]").
Proof. done. Qed.

Lemma state_label_unknown (gs : list (Z * string)) (c : Z) :
  c ∉ gs.*1 → GuardianTab.state_label gs c = "Unknown".
Proof.
  intros Hc. unfold GuardianTab.state_label.
  destruct (list_find _ gs) as [[i kv]|] eqn:Hfind; [|done].
  apply list_find_Some in Hfind as (Hi & <- & _). exfalso. apply Hc.
  apply (list_elem_of_fmap_2 fst). by eapply list_elem_of_lookup_2.
Qed.

(** C4, as amended.  For a tab built by [from_ini], a configured state
    [v] and a processed series that does not begin in [v]: when the value
    changes from [f] to [v] after the index [n] and the run of [v] that
    begins there is left at the index [j] into [t], [process] holds in the
    log of [v] the record of the time of sample [n + 1] with the raw
    codes [f] and [t], whether or not they are configured; a code is
    resolved to a name, ["Unknown"] for a code that is not configured,
    only where the record is rendered. *)
Theorem transition_recorded (tab : GuardianTab.Tab)
    (segments : gmap string DataQualityFlag)
    (grddata reqdata nomdata okdata : list TimeSeries)
    (d : TimeSeries * TimeSeries * TimeSeries * TimeSeries)
    (v : Z) (n j : nat) (f t : Z) :
  tab_wf tab →
  d ∈ epochs grddata reqdata nomdata okdata →
  v ∈ (GuardianTab.grdstates tab).*1 →
  head (value d.1.1.1) ≠ Some v →
  value d.1.1.1 !! n = Some f → f ≠ v →
  (∀ k, (n < k < j)%nat → value d.1.1.1 !! k = Some v) → (S n < j)%nat →
  value d.1.1.1 !! j = Some t → t ≠ v →
  ∃ st log,
    GuardianTab.process tab segments grddata reqdata nomdata okdata = Some st ∧
    GuardianTab.transitions st !! v = Some log ∧
    (x0 d.1.1.1 + Z.of_nat (S n) * dx d.1.1.1, f, t) ∈ log ∧
    ∀ c, GuardianTab.render_code (GuardianTab.grdstates tab) c
         = Some (GuardianTab.state_label (GuardianTab.grdstates tab) c
                 +:+ " [" +:+ str_of_int c +:+ "]") ∧
         (c ∉ (GuardianTab.grdstates tab).*1 →
          GuardianTab.state_label (GuardianTab.grdstates tab) c = "Unknown").
Proof.
  intros Hwf Hd Hv Hhead Hn Hf Hrun Hnj Hj Ht.
  destruct (process_ok tab Hwf segments grddata reqdata nomdata okdata)
    as (st & Hst & HT).
  exists st. eexists. split; [done|]. split; [by apply HT|]. split.
  - apply elem_of_concat with (l := detections d.1.1.1 v).
    + by apply detections_complete with (j := j).
    + by apply (list_elem_of_fmap_2 (λ d, detections d.1.1.1 v)).
  - intros c. split; [apply render_code_eq|apply state_label_unknown].
Qed.

Lemma transition_recorded_witness :
  ∃ st log,
    GuardianTab.process scenario_tab ∅
      [scenario] [scenario] [scenario] [scenario] = Some st ∧
    GuardianTab.transitions st !! 2 = Some log ∧
    (x0 scenario + Z.of_nat 3 * dx scenario, 1, 1) ∈ log ∧
    ∀ c, GuardianTab.render_code (GuardianTab.grdstates scenario_tab) c
         = Some (GuardianTab.state_label (GuardianTab.grdstates scenario_tab) c
                 +:+ " [" +:+ str_of_int c +:+ "]") ∧
         (c ∉ (GuardianTab.grdstates scenario_tab).*1 →
          GuardianTab.state_label (GuardianTab.grdstates scenario_tab) c
          = "Unknown").
Proof.
  apply (transition_recorded scenario_tab ∅
           [scenario] [scenario] [scenario] [scenario]
           (scenario, scenario, scenario, scenario) 2 2 5 1 1).
  - exact scenario_tab_wf.
  - left.
  - right. left.
  - discriminate.
  - reflexivity.
  - discriminate.
  - intros k Hk. destruct k as [|[|[|[|[|k]]]]]; try lia; reflexivity.
  - lia.
  - reflexivity.
  - discriminate.
Defined.

(** C4 fails as stated: in the series [1,3,2] the value changes at index
    1, from 1 to the state 3 that is not configured, and no log holds
    any record. *)
Lemma transition_recorded_counterexample :
  ∃ st, GuardianTab.process scenario_tab ∅ [through_unlisted]
          [through_unlisted] [through_unlisted] [through_unlisted] = Some st ∧
        value through_unlisted !! 0%nat = Some 1 ∧
        value through_unlisted !! 1%nat = Some 3 ∧
        map_Forall (λ _ log, log = []) (GuardianTab.transitions st).
Proof.
  eexists. split; [vm_compute; reflexivity|].
  split; [done|]. split; [done|].
  apply map_Forall_to_list. vm_compute. repeat constructor.
Qed.

(** ** The duty cycle (claim C9) *)

Lemma inject_Z_eq_bool_zero (z : Z) : Qeq_bool (inject_Z z) 0 = (z =? 0).
Proof.
  unfold Qeq_bool, inject_Z. cbn [Qnum Qden].
  rewrite Z.mul_1_r. by destruct z.
Qed.

(** C9.  For a flag whose validity segments have the total length zero
    the duty cycle is the value 0, the division error being caught; for
    any other flag it is the total length of the active segments divided
    by the total length of the validity segments, times 100. *)
Theorem duty_cycle (flag : DataQualityFlag) :
  (GuardianTab.abs_segments (valid flag) = 0 →
   GuardianTab.duty flag = 0%Q) ∧
  (GuardianTab.abs_segments (valid flag) ≠ 0 →
   GuardianTab.duty flag
   = (inject_Z (GuardianTab.abs_segments (active flag))
      / inject_Z (GuardianTab.abs_segments (valid flag)) * 100)%Q).
Proof.
  unfold GuardianTab.duty, GuardianTab.truediv.
  rewrite inject_Z_eq_bool_zero.
  split; intros Hv.
  - by rewrite Hv.
  - by apply Z.eqb_neq in Hv as ->.
Qed.

Lemma duty_cycle_witness :
  GuardianTab.duty flag_without_validity = 0%Q ∧
  GuardianTab.duty flag_always_active
  = (inject_Z (GuardianTab.abs_segments (active flag_always_active))
     / inject_Z (GuardianTab.abs_segments (valid flag_always_active)) * 100)%Q.
Proof.
  split.
  - apply (proj1 (duty_cycle flag_without_validity)). reflexivity.
  - apply (proj2 (duty_cycle flag_always_active)). discriminate.
Defined.

(** A node that is alive throughout a window of 100 s has the duty
    cycle 100. *)
Lemma duty_always_active : (GuardianTab.duty flag_always_active == 100)%Q.
Proof. reflexivity. Qed.

(** ** The tags of the stored segments (claim C6) *)

Lemma append_suffix (ifo node name suffix : string) :
  (ifo +:+ ":" +:+ node +:+ " " +:+ name) +:+ suffix
  = ifo +:+ ":" +:+ node +:+ " " +:+ name +:+ suffix.
Proof. by rewrite !append_assoc. Qed.

Lemma tags_eq (ifo node name : string) :
  percent_free ifo = true → percent_free node = true →
  let fmt := ifo +:+ ":" +:+ node +:+ " %s" in
  Tags.active_tag fmt name = Some (ifo +:+ ":" +:+ node +:+ " " +:+ name) ∧
  Tags.request_tag fmt name
  = Some (ifo +:+ ":" +:+ node +:+ " " +:+ name +:+ "+request") ∧
  Tags.nominal_tag fmt name
  = Some (ifo +:+ ":" +:+ node +:+ " " +:+ name +:+ "+nominal") ∧
  Tags.ok_tag fmt = Some (ifo +:+ ":" +:+ node +:+ " OK").
Proof.
  intros Hi Hn fmt.
  unfold Tags.active_tag, Tags.request_tag, Tags.nominal_tag, Tags.ok_tag, fmt.
  rewrite !format_segmenttag by done. cbn [mbind option_bind].
  unfold Tags.REQUESTSTUB, Tags.NOMINALSTUB. by rewrite !append_suffix.
Qed.

Lemma iadd_is_Some (a b : gmap string DataQualityFlag) (tag : string) :
  is_Some (Aggregator.iadd a b !! tag) ↔ is_Some (a !! tag) ∨ is_Some (b !! tag).
Proof.
  unfold Aggregator.iadd. rewrite lookup_union_with.
  destruct (a !! tag), (b !! tag); cbn; split; intros H; eauto;
    destruct H as [[? H]|[? H]]; done.
Qed.

Lemma tag_step (m : gmap string DataQualityFlag) (F : string → string)
    (n0 : string) (names : list string) (tag : string) (x : DataQualityFlag) :
  (is_Some (<[F n0 := x]> m !! tag) ∨ ∃ name, name ∈ names ∧ tag = F name) ↔
  is_Some (m !! tag) ∨ ∃ name, name ∈ n0 :: names ∧ tag = F name.
Proof.
  rewrite lookup_insert_is_Some. split.
  - intros [[<-|[_ ?]]|(name & ? & ->)].
    + right. exists n0. split; [left|done].
    + by left.
    + right. exists name. split; [by right|done].
  - intros [?|(name & [->|?]%elem_of_cons & ->)].
    + destruct (decide (F n0 = tag)); left; [by left|by right].
    + left. by left.
    + right. by exists name.
Qed.

Section stored_tags.
Import GuardianTab.
Context (tab : Tab) (ifo node : string).
Context (Hifo : percent_free ifo = true) (Hnode : percent_free node = true).
Context (Htag : Tags.segmenttag ifo node = Some (segmenttag tab)).

Lemma process_state_segs (sd rd nd : TimeSeries) (e e' : Epoch)
    (item : Z * string) :
  process_state tab sd rd nd e item = Some e' →
  ssegs e' =
    <[ifo +:+ ":" +:+ node +:+ " " +:+ item.2 :=
        Segmenter.to_dqflag (x0 sd) (dx sd) (instate sd item.1)]> (ssegs e) ∧
  rsegs e' =
    <[ifo +:+ ":" +:+ node +:+ " " +:+ item.2 +:+ "+request" :=
        Segmenter.to_dqflag (x0 rd) (dx rd) (eq_scalar (value rd) item.1)]>
      (rsegs e) ∧
  nsegs e' =
    <[ifo +:+ ":" +:+ node +:+ " " +:+ item.2 +:+ "+nominal" :=
        Segmenter.to_dqflag (x0 nd) (dx nd) (eq_scalar (value nd) item.1)]>
      (nsegs e).
Proof.
  rewrite segmenttag_eq in Htag. injection Htag as Hfmt.
  unfold process_state. rewrite <- Hfmt.
  destruct (tags_eq ifo node item.2 Hifo Hnode) as (-> & -> & -> & _).
  cbn [mbind option_bind].
  destruct (ep_transitions e !! item.1) as [log|]; [|done].
  cbn [mbind option_bind]. rewrite state_transitions_eq.
  cbn [mbind option_bind]. by intros [= <-].
Qed.

Lemma process_states_segs (sd rd nd : TimeSeries) (items : list (Z * string))
    (e e' : Epoch) (tag : string) :
  foldlM (process_state tab sd rd nd) e items = Some e' →
  (is_Some (ssegs e' !! tag) ↔
   is_Some (ssegs e !! tag) ∨
   ∃ name, name ∈ items.*2 ∧ tag = ifo +:+ ":" +:+ node +:+ " " +:+ name) ∧
  (is_Some (rsegs e' !! tag) ↔
   is_Some (rsegs e !! tag) ∨
   ∃ name, name ∈ items.*2 ∧
     tag = ifo +:+ ":" +:+ node +:+ " " +:+ name +:+ "+request") ∧
  (is_Some (nsegs e' !! tag) ↔
   is_Some (nsegs e !! tag) ∨
   ∃ name, name ∈ items.*2 ∧
     tag = ifo +:+ ":" +:+ node +:+ " " +:+ name +:+ "+nominal").
Proof.
  revert e. induction items as [|item items IH]; intros e Hfold.
  - injection Hfold as <-.
    repeat split; try (by left); intros [?|(? & []%elem_of_nil & _)]; done.
  - cbn [foldlM] in Hfold.
    destruct (process_state tab sd rd nd e item) as [e1|] eqn:He1; [|done].
    cbn [mbind option_bind] in Hfold.
    destruct (process_state_segs _ _ _ _ _ _ He1) as (Hs & Hr & Hn).
    destruct (IH e1 Hfold) as (IHs & IHr & IHn).
    rewrite IHs, IHr, IHn, Hs, Hr, Hn, fmap_cons.
    split; [|split].
    + apply (tag_step _ (λ name, ifo +:+ ":" +:+ node +:+ " " +:+ name)).
    + apply (tag_step _
        (λ name, ifo +:+ ":" +:+ node +:+ " " +:+ name +:+ "+request")).
    + apply (tag_step _
        (λ name, ifo +:+ ":" +:+ node +:+ " " +:+ name +:+ "+nominal")).
Qed.

Lemma process_epoch_segs (st st' : State)
    (d : TimeSeries * TimeSeries * TimeSeries * TimeSeries) (tag : string) :
  process_epoch tab st d = Some st' →
  (is_Some (SEGMENTS st' !! tag) ↔
   is_Some (SEGMENTS st !! tag) ∨ node_tag ifo node (grdstates tab).*2 tag).
Proof.
  destruct d as [[[sd rd] nd] od]. unfold process_epoch.
  destruct (foldlM _ _ _) as [e|] eqn:He; [|done].
  cbn [mbind option_bind].
  pose proof Htag as Hfmt. rewrite segmenttag_eq in Hfmt.
  injection Hfmt as Hfmt. rewrite <- Hfmt.
  destruct (tags_eq ifo node "" Hifo Hnode) as (_ & _ & _ & ->).
  cbn [mbind option_bind]. intros [= <-]. cbn [SEGMENTS].
  destruct (process_states_segs sd rd nd _ _ _ tag He) as (Hs & Hr & Hn).
  cbn [ssegs rsegs nsegs] in Hs, Hr, Hn. rewrite lookup_empty in Hs, Hr, Hn.
  rewrite !iadd_is_Some, Hs, Hr, Hn, <- insert_empty,
    lookup_insert_is_Some, lookup_empty.
  pose proof (@is_Some_None DataQualityFlag) as HN.
  unfold node_tag. split.
  - intros [[[[?|[?|?]]|[?|?]]|[?|?]]|[?|[_ ?]]]; try done.
    + by left.
    + right. right. destruct H as (name & ? & ->). exists name. auto.
    + right. right. destruct H as (name & ? & ->). exists name. auto.
    + right. right. destruct H as (name & ? & ->). exists name. auto.
    + right. by left.
  - intros [?|[->|(name & ? & [->|[->| ->]])]].
    + by do 4 left.
    + right. by left.
    + do 3 left. right. right. by exists name.
    + do 2 left. right. right. by exists name.
    + left. right. right. by exists name.
Qed.

Lemma process_epochs_segs
    (eps : list (TimeSeries * TimeSeries * TimeSeries * TimeSeries))
    (st st' : State) (tag : string) :
  foldlM (process_epoch tab) st eps = Some st' →
  (is_Some (SEGMENTS st' !! tag) ↔
   is_Some (SEGMENTS st !! tag) ∨
   (eps ≠ [] ∧ node_tag ifo node (grdstates tab).*2 tag)).
Proof.
  revert st. induction eps as [|d eps IH]; intros st Hfold.
  - injection Hfold as <-. split; [by left|]. by intros [?|[? _]].
  - cbn [foldlM] in Hfold.
    destruct (process_epoch tab st d) as [st1|] eqn:Hst1; [|done].
    cbn [mbind option_bind] in Hfold.
    rewrite (IH st1 Hfold), (process_epoch_segs _ _ _ tag Hst1).
    split.
    + intros [[?|?]|[_ ?]]; [by left|by right..].
    + intros [?|[_ ?]]; [left; by left|left; by right].
Qed.
End stored_tags.

(** ** The coverage of a union of segments *)

Lemma covered_nil (t : Z) : ¬ covered [] t.
Proof. by intros (s & ?%elem_of_nil & _). Qed.

Lemma covered_cons (s : Segment) (l : list Segment) (t : Z) :
  covered (s :: l) t ↔ s.1 <= t < s.2 ∨ covered l t.
Proof.
  unfold covered. split.
  - intros (s' & [->|?]%elem_of_cons & ?); [by left|right; by exists s'].
  - intros [?|(s' & ? & ?)]; [exists s; split; [left|done]|].
    exists s'. split; [by right|done].
Qed.

Lemma covered_app (a b : list Segment) (t : Z) :
  covered (a ++ b) t ↔ covered a t ∨ covered b t.
Proof.
  unfold covered. split.
  - intros (s & [?|?]%elem_of_app & ?); [left|right]; by exists s.
  - intros [(s & ? & ?)|(s & ? & ?)]; exists s; rewrite elem_of_app; auto.
Qed.

Lemma elem_of_insert_by_start (x s : Segment) (l : list Segment) :
  x ∈ Aggregator.insert_by_start s l ↔ x = s ∨ x ∈ l.
Proof.
  induction l as [|s' l IH]; cbn [Aggregator.insert_by_start].
  - rewrite list_elem_of_singleton, elem_of_nil. tauto.
  - destruct (s.1 <=? s'.1); rewrite !elem_of_cons; [done|].
    rewrite IH. tauto.
Qed.

Lemma elem_of_sort_by_start (x : Segment) (l : list Segment) :
  x ∈ Aggregator.sort_by_start l ↔ x ∈ l.
Proof.
  unfold Aggregator.sort_by_start. induction l as [|s l IH]; [done|].
  cbn [foldr]. by rewrite elem_of_insert_by_start, elem_of_cons, IH.
Qed.

Lemma insert_by_start_sorted (s : Segment) (l : list Segment) :
  start_sorted l → start_sorted (Aggregator.insert_by_start s l).
Proof.
  induction l as [|s' l IH]; intros Hl; cbn [Aggregator.insert_by_start].
  - by split.
  - destruct Hl as [Hs' Hl]. destruct (Z.leb_spec s.1 s'.1) as [Hle|Hlt].
    + split; [|by split]. constructor; [done|].
      eapply Forall_impl; [exact Hs'|]. intros; cbn in *; lia.
    + split; [|by apply IH]. apply Forall_forall.
      intros x [->|Hx]%elem_of_insert_by_start; [lia|].
      by eapply (proj1 (Forall_forall _ _) Hs').
Qed.

Lemma sort_by_start_sorted (l : list Segment) :
  start_sorted (Aggregator.sort_by_start l).
Proof.
  unfold Aggregator.sort_by_start. induction l as [|s l IH]; [done|].
  by apply insert_by_start_sorted.
Qed.

(** Coalescing a list in order of start keeps the set of covered
    times. *)
Lemma covered_coalesce_from (cur : Segment) (l : list Segment) (t : Z) :
  Forall (λ s : Segment, cur.1 <= s.1) l → start_sorted l →
  covered (Aggregator.coalesce_from cur l) t ↔ covered (cur :: l) t.
Proof.
  revert cur. induction l as [|s l IH]; intros cur Hcur Hl; [done|].
  cbn [Aggregator.coalesce_from]. destruct Hl as [Hs Hl].
  apply Forall_cons in Hcur as [Hcs Hcur].
  destruct (Z.leb_spec s.1 cur.2) as [Hle|Hlt].
  - rewrite IH; [|done|done]. rewrite !covered_cons. cbn [fst snd].
    assert (cur.1 <= t < Z.max cur.2 s.2 ↔
            cur.1 <= t < cur.2 ∨ s.1 <= t < s.2) as -> by lia.
    tauto.
  - rewrite covered_cons, IH, !covered_cons by done. done.
Qed.

Lemma covered_coalesce (l : list Segment) (t : Z) :
  covered (Aggregator.coalesce l) t ↔ covered l t.
Proof.
  unfold Aggregator.coalesce.
  pose proof (sort_by_start_sorted l) as Hsorted.
  assert (covered (Aggregator.sort_by_start l) t ↔ covered l t) as <-.
  { unfold covered. by setoid_rewrite elem_of_sort_by_start. }
  destruct (Aggregator.sort_by_start l) as [|s rest]; [done|].
  destruct Hsorted as [Hs Hrest]. by apply covered_coalesce_from.
Qed.

Lemma covered_union (a b : list Segment) (t : Z) :
  covered (Aggregator.union a b) t ↔ covered a t ∨ covered b t.
Proof. unfold Aggregator.union. by rewrite covered_coalesce, covered_app. Qed.

(** [SEGMENTS += {tag: flag}] is the merge of the one tag. *)
Lemma iadd_singleton (store : gmap string DataQualityFlag) (tag : string)
    (f : DataQualityFlag) :
  Aggregator.iadd store {[tag := f]} = Aggregator.merge tag f store.
Proof.
  apply map_eq. intros k. unfold Aggregator.iadd, Aggregator.merge.
  rewrite lookup_union_with. destruct (decide (tag = k)) as [<-|Hne].
  - rewrite lookup_singleton_eq.
    destruct (store !! tag); by rewrite lookup_insert_eq.
  - rewrite lookup_singleton_ne by done.
    destruct (store !! tag); rewrite lookup_insert_ne by done;
      by destruct (store !! k).
Qed.

(** ** The segments stored under the tags *)

Lemma string_length_app (a b : string) :
  String.length (a +:+ b) = (String.length a + String.length b)%nat.
Proof.
  induction a as [|c a IH]; [done|].
  rewrite append_cons. cbn [String.length]. by rewrite IH.
Qed.




Section cover.
Context (proj : DataQualityFlag → list Segment).
Context (Hproj : ∀ f g, proj (Aggregator.flag_union f g)
                        = Aggregator.union (proj f) (proj g)).




End cover.

Section stored_roles.
Import GuardianTab.
Context (tab : Tab) (ifo node : string).
Context (Hifo : percent_free ifo = true) (Hnode : percent_free node = true).
Context (Htag : Tags.segmenttag ifo node = Some (segmenttag tab)).
Context (Hnames : NoDup (grdstates tab).*2).
Context (proj : DataQualityFlag → list Segment).
Context (Hproj : ∀ f g, proj (Aggregator.flag_union f g)
                        = Aggregator.union (proj f) (proj g)).



End stored_roles.




(** A [%] in the node name is read as a conversion when the tag is
    formatted: the node [A%%B] is stored under [A%B]. *)
Lemma percent_in_node_name :
  Tags.segmenttag "X1" "A%%B" = Some "X1:A%%B %s" ∧
  Tags.active_tag "X1:A%%B %s" "state_a" = Some "X1:A%B state_a".
Proof. done. Qed.

(** ** Coalesced lists *)

Lemma normal_proper (l : list Segment) : normal l → Forall proper l.
Proof.
  induction l as [|s l IH]; intros Hl; [done|].
  destruct Hl as (? & _ & ?). constructor; auto.
Qed.

Lemma normal_after (s : Segment) (l : list Segment) (t : Z) :
  normal (s :: l) → covered l t → s.2 < t.
Proof.
  revert s. induction l as [|s' l IH]; intros s Hn Ht.
  - by apply covered_nil in Ht.
  - destruct Hn as (Hs & Hlt & Hn'). pose proof Hn' as (Hs' & _ & _).
    apply covered_cons in Ht as [Ht|Ht]; [lia|].
    specialize (IH s' Hn' Ht). unfold proper in *. lia.
Qed.

Lemma coalesce_from_normal (cur : Segment) (l : list Segment) :
  proper cur → Forall proper l →
  normal (Aggregator.coalesce_from cur l) ∧
  ∃ e rest, Aggregator.coalesce_from cur l = (cur.1, e) :: rest ∧ cur.2 <= e.
Proof.
  revert cur. induction l as [|s l IH]; intros cur Hcur Hl.
  - split; [by split|]. exists cur.2, []. split; [by destruct cur|lia].
  - apply Forall_cons in Hl as [Hs Hl]. cbn [Aggregator.coalesce_from].
    destruct (Z.leb_spec s.1 cur.2) as [Hle|Hlt].
    + destruct (IH (cur.1, Z.max cur.2 s.2)) as (Hn & e & rest & Heq & He);
        [unfold proper in *; cbn; lia|done|].
      split; [done|]. exists e, rest. split; [done|]. cbn in He. lia.
    + destruct (IH s Hs Hl) as (Hn & e & rest & Heq & He).
      split.
      * rewrite Heq in Hn |- *. split; [done|]. split; [done|]. done.
      * exists cur.2, (Aggregator.coalesce_from s l).
        split; [by destruct cur|lia].
Qed.

Lemma coalesce_normal (l : list Segment) :
  Forall proper l → normal (Aggregator.coalesce l).
Proof.
  intros Hl. unfold Aggregator.coalesce.
  assert (Forall proper (Aggregator.sort_by_start l)) as Hsort.
  { apply Forall_forall. intros x Hx. rewrite elem_of_sort_by_start in Hx.
    rewrite Forall_forall in Hl. exact (Hl x Hx). }
  destruct (Aggregator.sort_by_start l) as [|s rest]; [done|].
  apply Forall_cons in Hsort as [Hs Hrest].
  by apply coalesce_from_normal.
Qed.

(** Two coalesced lists that cover the same times are equal. *)
Lemma normal_unique (l1 l2 : list Segment) :
  normal l1 → normal l2 →
  (∀ t, covered l1 t ↔ covered l2 t) → l1 = l2.
Proof.
  revert l2. induction l1 as [|[a b] l1 IH]; intros [|[c d] l2] Hn1 Hn2 Hcov.
  - done.
  - destruct Hn2 as (Hp & _). exfalso. apply (covered_nil c), Hcov.
    apply covered_cons. left. unfold proper in Hp. cbn in *. lia.
  - destruct Hn1 as (Hp & _). exfalso. apply (covered_nil a), Hcov.
    apply covered_cons. left. unfold proper in Hp. cbn in *. lia.
  - pose proof Hn1 as (Hp1 & _ & Hn1'). pose proof Hn2 as (Hp2 & _ & Hn2').
    unfold proper in Hp1, Hp2. cbn [fst snd] in Hp1, Hp2.
    pose proof (normal_after _ _ a Hn2) as Ha2.
    pose proof (normal_after _ _ c Hn1) as Hc1.
    pose proof (normal_after _ _ b Hn1) as Hb1.
    pose proof (normal_after _ _ d Hn1) as Hd1.
    pose proof (normal_after _ _ b Hn2) as Hb2.
    pose proof (normal_after _ _ d Hn2) as Hd2.
    pose proof (Hcov a) as Hca. pose proof (Hcov b) as Hcb.
    pose proof (Hcov c) as Hcc. pose proof (Hcov d) as Hcd.
    rewrite !covered_cons in Hca, Hcb, Hcc, Hcd. cbn [fst snd] in *.
    assert (c <= a) as Hle1
      by (destruct (proj1 Hca) as [?|?%Ha2]; [left; lia|lia|lia]).
    assert (a <= c) as Hle2
      by (destruct (proj2 Hcc) as [?|?%Hc1]; [left; lia|lia|lia]).
    assert (a = c) as <- by lia. clear Hle1 Hle2.
    assert (b = d) as <-.
    { destruct (Z.lt_trichotomy b d) as [Hlt|[?|Hgt]]; [|done|].
      - destruct (proj2 Hcb) as [?|?%Hb1]; [left; lia|lia|lia].
      - destruct (proj1 Hcd) as [?|?%Hd2]; [left; lia|lia|lia]. }
    f_equal. apply IH; [done|done|]. intros t.
    pose proof (Hcov t) as Ht. rewrite !covered_cons in Ht. cbn [fst snd] in Ht.
    pose proof (normal_after _ _ t Hn1) as Ht1.
    pose proof (normal_after _ _ t Hn2) as Ht2. cbn [fst snd] in *.
    split; intros Hc.
    + destruct Ht as [Ht _]. destruct Ht as [?|?]; [by right| |done].
      specialize (Ht1 Hc). lia.
    + destruct Ht as [_ Ht]. destruct Ht as [?|?]; [by right| |done].
      specialize (Ht2 Hc). lia.
Qed.

(** The union of a coalesced list with itself is the list. *)
Lemma union_idem (l : list Segment) :
  normal l → Aggregator.union l l = l.
Proof.
  intros Hl. apply normal_unique; [|done|].
  - apply coalesce_normal, Forall_app. split; by apply normal_proper.
  - intros t. rewrite covered_union. tauto.
Qed.

Lemma union_absorb (a b : list Segment) :
  Forall proper a → Forall proper b →
  Aggregator.union (Aggregator.union a b) b = Aggregator.union a b.
Proof.
  intros Ha Hb.
  assert (normal (Aggregator.union a b)) as Hab
    by (apply coalesce_normal, Forall_app; by split).
  apply normal_unique; [|done|].
  - apply coalesce_normal, Forall_app. split; [by apply normal_proper|done].
  - intros t. rewrite !covered_union. tauto.
Qed.

(** For coalesced segment lists, merging a flag twice leaves the very
    store that merging it once leaves. *)
Lemma merge_twice_eq (tag : string) (f : DataQualityFlag)
    (store : gmap string DataQualityFlag) :
  normal (active f) → normal (valid f) →
  (∀ old, store !! tag = Some old →
          Forall proper (active old) ∧ Forall proper (valid old)) →
  Aggregator.merge tag f (Aggregator.merge tag f store)
  = Aggregator.merge tag f store.
Proof.
  intros Ha Hv Hold. destruct (store !! tag) as [old|] eqn:Hlook.
  - assert (Aggregator.merge tag f store
            = <[tag := Aggregator.flag_union old f]> store) as ->
      by (unfold Aggregator.merge; by rewrite Hlook).
    destruct (Hold old eq_refl) as [Hoa Hov].
    unfold Aggregator.merge. rewrite lookup_insert_eq, insert_insert_eq.
    f_equal. unfold Aggregator.flag_union. cbn [active valid].
    apply normal_proper in Ha, Hv. by rewrite !union_absorb by done.
  - assert (Aggregator.merge tag f store = <[tag := f]> store) as ->
      by (unfold Aggregator.merge; by rewrite Hlook).
    unfold Aggregator.merge. rewrite lookup_insert_eq, insert_insert_eq.
    f_equal. unfold Aggregator.flag_union.
    rewrite !union_idem by done. by destruct f.
Qed.

(** ** Merging twice (claim C7) *)

(** C7.  For every tag, flag and store, merging the flag under the tag
    twice leaves the store with the same coverage under the tag, of the
    active segments and of the valid ones, as merging it once, and with
    the same entries under the other tags. *)
Theorem merge_idempotent (tag : string) (f : DataQualityFlag)
    (store : gmap string DataQualityFlag) :
  ∃ once twice,
    Aggregator.merge tag f store !! tag = Some once ∧
    Aggregator.merge tag f (Aggregator.merge tag f store) !! tag = Some twice ∧
    (∀ t, covered (active twice) t ↔ covered (active once) t) ∧
    (∀ t, covered (valid twice) t ↔ covered (valid once) t) ∧
    ∀ tag', tag' ≠ tag →
      Aggregator.merge tag f (Aggregator.merge tag f store) !! tag'
      = Aggregator.merge tag f store !! tag'.
Proof.
  assert (∃ once, Aggregator.merge tag f store !! tag = Some once ∧
            (∀ t, covered (active f) t → covered (active once) t) ∧
            (∀ t, covered (valid f) t → covered (valid once) t))
    as (once & Honce & Ha & Hv).
  { unfold Aggregator.merge. destruct (store !! tag) as [old|];
      rewrite lookup_insert_eq; eexists; (split; [done|]).
    - split; intros t Ht; cbn; rewrite covered_union; by right.
    - done. }
  exists once, (Aggregator.flag_union once f). repeat split.
  - done.
  - unfold Aggregator.merge at 1. by rewrite Honce, lookup_insert_eq.
  - cbn. rewrite covered_union. intros [?|?]; auto.
  - intros ?. cbn. rewrite covered_union. by left.
  - cbn. rewrite covered_union. intros [?|?]; auto.
  - intros ?. cbn. rewrite covered_union. by left.
  - intros tag' Hne. unfold Aggregator.merge at 1. rewrite Honce.
    by rewrite lookup_insert_ne.
Qed.

(** ** Touching epochs (claim C8) *)

(** C8.  Merging a flag active on [[0,10)] under a tag of an empty store
    and then a flag active on [[10,20)] under the same tag leaves the one
    active segment [[0,20)] under the tag; [process], run on two epochs
    that hold state 1 on [[0,10)] and on [[10,20)], stores the one
    segment [[0,20)] under the tag of the state. *)
Theorem touching_epochs_coalesce (tag : string) (v1 v2 : list Segment) :
  active <$> (Aggregator.merge tag (mkFlag v2 [(10, 20)])
                (Aggregator.merge tag (mkFlag v1 [(0, 10)]) ∅) !! tag)
  = Some [(0, 20)] ∧
  ∃ st, GuardianTab.process scenario_tab ∅ [epoch1; epoch2] [epoch1; epoch2]
          [epoch1; epoch2] [epoch1; epoch2] = Some st ∧
        active <$> (GuardianTab.SEGMENTS st !! "X1:NODE state_a")
        = Some [(0, 20)].
Proof.
  split.
  - unfold Aggregator.merge at 2. rewrite lookup_empty.
    unfold Aggregator.merge. by rewrite !lookup_insert_eq.
  - eexists. split; [vm_compute; reflexivity|]. by vm_compute.
Qed.

(** ** The segments of a series (claim C2) *)

Lemma all_true_cons_0 (x : bool) (l : list bool) (m : nat) :
  all_true (x :: l) 0 (S m) ↔ x = true ∧ all_true l 0 m.
Proof.
  unfold all_true. split.
  - intros H. split.
    + specialize (H 0%nat). cbn in H. injection H; [done|lia].
    + intros k Hk. apply (H (S k)). lia.
  - intros [-> H] [|k] Hk; [done|]. apply H. lia.
Qed.

Lemma all_true_cons_S (x : bool) (l : list bool) (n m : nat) :
  all_true (x :: l) (S n) (S m) ↔ all_true l n m.
Proof.
  unfold all_true. split.
  - intros H k Hk. apply (H (S k)). lia.
  - intros H [|k] Hk; [lia|]. apply H. lia.
Qed.

Lemma run_end_cons_S (x : bool) (l : list bool) (m : nat) :
  run_end (x :: l) (S m) ↔ run_end l m.
Proof.
  unfold run_end. cbn [length lookup list_lookup]. split; intros [?|?]; auto with lia.
Qed.

Lemma run_end_cons_0 (x : bool) (l : list bool) :
  run_end (x :: l) 0 ↔ x = false.
Proof.
  unfold run_end. cbn. split; [intros [?|[= ?]]; done|intros ->; by right].
Qed.

Lemma sample_time_S (x0 dx : Z) (p k : nat) :
  sample_time x0 dx (p + S k) = sample_time x0 dx (S p + k).
Proof. unfold sample_time. do 2 f_equal. lia. Qed.

Lemma run_from_start_cons (x0 dx : Z) (x : bool) (l : list bool) (p : nat)
    (b : Z) :
  (∃ m, all_true (x :: l) 0 m ∧ run_end (x :: l) m ∧
        b = sample_time x0 dx (p + m)) ↔
  (x = false ∧ b = sample_time x0 dx p) ∨
  (x = true ∧ ∃ m, all_true l 0 m ∧ run_end l m ∧
                   b = sample_time x0 dx (S p + m)).
Proof.
  split.
  - intros ([|m] & Hall & Hend & ->).
    + left. apply run_end_cons_0 in Hend. by rewrite Nat.add_0_r.
    + right. apply all_true_cons_0 in Hall as [-> Hall].
      apply run_end_cons_S in Hend. split; [done|]. exists m.
      by rewrite sample_time_S.
  - intros [[-> ->]|[-> (m & Hall & Hend & ->)]].
    + exists 0%nat. rewrite Nat.add_0_r. repeat split; [intros k; lia|].
      by apply run_end_cons_0.
    + exists (S m). rewrite sample_time_S. repeat split.
      * by apply all_true_cons_0.
      * by apply run_end_cons_S.
Qed.

Lemma run_later_cons (x0 dx : Z) (x prevb : bool) (l : list bool) (p : nat)
    (a b : Z) :
  (∃ n m, (n < m)%nat ∧ (prevb :: x :: l) !! n = Some false ∧
     all_true (x :: l) n m ∧ run_end (x :: l) m ∧
     a = sample_time x0 dx (p + n) ∧ b = sample_time x0 dx (p + m)) ↔
  (prevb = false ∧ x = true ∧ a = sample_time x0 dx p ∧
   ∃ m, all_true l 0 m ∧ run_end l m ∧ b = sample_time x0 dx (S p + m)) ∨
  (∃ n m, (n < m)%nat ∧ (x :: l) !! n = Some false ∧
     all_true l n m ∧ run_end l m ∧
     a = sample_time x0 dx (S p + n) ∧ b = sample_time x0 dx (S p + m)).
Proof.
  split.
  - intros (n & [|m] & Hnm & Hprev & Hall & Hend & -> & ->); [lia|].
    apply run_end_cons_S in Hend. destruct n as [|n].
    + left. apply all_true_cons_0 in Hall as [-> Hall].
      cbn in Hprev. injection Hprev as ->. rewrite Nat.add_0_r.
      repeat split. exists m. by rewrite sample_time_S.
    + right. apply all_true_cons_S in Hall. exists n, m.
      rewrite !sample_time_S. repeat split; try done. lia.
  - intros [(-> & -> & -> & m & Hall & Hend & ->)
           |(n & m & Hnm & Hprev & Hall & Hend & -> & ->)].
    + exists 0%nat, (S m). rewrite Nat.add_0_r, sample_time_S.
      repeat split; [lia| |].
      * by apply all_true_cons_0.
      * by apply run_end_cons_S.
    + exists (S n), (S m). rewrite !sample_time_S.
      repeat split; [lia|done| |].
      * by apply all_true_cons_S.
      * by apply run_end_cons_S.
Qed.

(** The segments of a scan: the run in progress, closed where it ends,
    and the maximal runs that begin later. *)
Lemma bool_segments_spec (x0 dx : Z) (l : list bool) (p : nat)
    (open : option Z) (a b : Z) :
  (a, b) ∈ Segmenter.bool_segments x0 dx p open l ↔
  (open = Some a ∧
   ∃ m, all_true l 0 m ∧ run_end l m ∧ b = sample_time x0 dx (p + m)) ∨
  (∃ n m, (n < m)%nat ∧ (opened open :: l) !! n = Some false ∧
     all_true l n m ∧ run_end l m ∧
     a = sample_time x0 dx (p + n) ∧ b = sample_time x0 dx (p + m)).
Proof.
  revert p open. induction l as [|x l IH]; intros p open.
  - cbn [Segmenter.bool_segments]. split.
    + destruct open as [a0|]; [|by intros ?%elem_of_nil].
      intros [= -> ->]%list_elem_of_singleton. left. split; [done|].
      exists 0%nat. repeat split; [intros k; lia|by left|].
      unfold sample_time. do 2 f_equal. lia.
    + intros [[-> (m & _ & [->|Hm] & ->)]|(n & m & Hnm & _ & Hall & _)].
      * cbn [length]. rewrite Nat.add_0_r. left.
      * done.
      * specialize (Hall n). cbn in Hall. discriminate Hall. lia.
  - rewrite run_from_start_cons, run_later_cons.
    destruct x, open as [a0|]; cbn [Segmenter.bool_segments opened];
      rewrite ?elem_of_cons, IH; cbn [opened];
      fold (sample_time x0 dx p).
    all: clear IH; try (intuition (discriminate || congruence)).

Qed.

Lemma run_start_iff (mask : list bool) (n : nat) :
  (false :: mask) !! n = Some false ↔
  n = 0%nat ∨ mask !! (n - 1)%nat = Some false.
Proof.
  destruct n as [|n].
  - split; [by left|done].
  - replace (S n - 1)%nat with n by lia. cbn [lookup list_lookup].
    split; [by right|]. by intros [?|?].
Qed.

(** C2.  Spec-modelled segmenter.  On the series [1,1,1,2,2,1,1] at 1 Hz
    from [t = 0] the segments of the value 1 are [[0,3)] and [[5,7)] and
    those of the value 2 are [[3,5)]; for every series and value, the
    segments are exactly the intervals that open at the time of the first
    sample of a maximal run of matching samples and close at the time of
    the sample after the run, which for a run reaching the last sample is
    one step past the time of that sample. *)
Theorem segment_runs :
  Segmenter.segment scenario 1 = [(0, 3); (5, 7)] ∧
  Segmenter.segment scenario 2 = [(3, 5)] ∧
  (∀ (s : TimeSeries) (v a b : Z),
     (a, b) ∈ Segmenter.segment s v ↔
     ∃ i j, maximal_run (Numpy.eq_scalar (value s) v) i j ∧
            a = sample_time (x0 s) (dx s) i ∧
            b = sample_time (x0 s) (dx s) j) ∧
  (∀ (s : TimeSeries) (n : nat),
     sample_time (x0 s) (dx s) (S n) = sample_time (x0 s) (dx s) n + dx s).
Proof.
  split; [done|]. split; [done|]. split.
  - intros s v a b. unfold Segmenter.segment, Segmenter.to_dqflag.
    cbn [active]. rewrite bool_segments_spec. cbn [opened]. split.
    + intros [[[=] _]|(n & m & Hnm & Hn & Hall & Hend & -> & ->)].
      exists n, m. repeat split; try done. by apply run_start_iff.
    + intros (i & j & (Hij & Hi & Hall & Hend) & -> & ->). right.
      exists i, j. repeat split; try done. by apply run_start_iff.
  - intros s n. unfold sample_time. lia.
Qed.

(** The segments of a scan with a positive step are coalesced; the
    first of them opens where the run in progress opened, or not before
    the sample the scan is at. *)
Lemma bool_segments_normal (x0 dx : Z) (l : list bool) (p : nat)
    (open : option Z) :
  0 < dx →
  (∀ a, open = Some a → a < sample_time x0 dx p) →
  normal (Segmenter.bool_segments x0 dx p open l) ∧
  match Segmenter.bool_segments x0 dx p open l with
  | [] => True
  | s :: _ =>
      match open with
      | Some a => s.1 = a
      | None => sample_time x0 dx p <= s.1
      end
  end.
Proof.
  intros Hdx. revert p open. induction l as [|x l IH]; intros p open Hopen.
  - cbn [Segmenter.bool_segments]. fold (sample_time x0 dx p).
    destruct open as [a|]; [|done]. specialize (Hopen a eq_refl).
    repeat split; done.
  - assert (sample_time x0 dx p < sample_time x0 dx (S p)) as Hstep
      by (unfold sample_time; lia).
    cbn [Segmenter.bool_segments]. fold (sample_time x0 dx p).
    destruct x, open as [a|].
    + apply IH. intros ? [= <-]. specialize (Hopen a eq_refl). lia.
    + destruct (IH (S p) (Some (sample_time x0 dx p))) as [Hn Hhead];
        [by intros ? [= <-]|].
      split; [done|].
      destruct (Segmenter.bool_segments _ _ _ _ _); [done|]. lia.
    + destruct (IH (S p) None) as [Hn Hhead]; [done|].
      specialize (Hopen a eq_refl). split; [|done].
      split; [done|]. split; [|done].
      destruct (Segmenter.bool_segments _ _ _ _ _); [done|].
      cbn [fst snd]. lia.
    + destruct (IH (S p) None) as [Hn Hhead]; [done|].
      split; [done|].
      destruct (Segmenter.bool_segments _ _ _ _ _); [done|]. lia.
Qed.

(** The flag of a series that is not empty and has a positive step has
    coalesced segment lists. *)
Lemma to_dqflag_normal (x0 dx : Z) (mask : list bool) :
  0 < dx → mask ≠ [] →
  normal (active (Segmenter.to_dqflag x0 dx mask)) ∧
  normal (valid (Segmenter.to_dqflag x0 dx mask)).
Proof.
  intros Hdx Hmask. unfold Segmenter.to_dqflag. cbn [active valid]. split.
  - by apply bool_segments_normal.
  - repeat split. unfold proper. cbn [fst snd].
    destruct mask; [done|]. cbn [length]. lia.
Qed.

(** * Further properties *)

(** ** The records of the detector *)

(** A record of the state [v] stems from an entry index and an exit
    index. *)
Lemma detections_elem (s : TimeSeries) (v : Z) (r : Transition) :
  r ∈ detections s v ↔
  ∃ i j, (i, j) ∈ zip (transin s v) (transout s v) ∧ r = record_of s (i, j).
Proof.
  unfold detections. rewrite list_elem_of_fmap. split.
  - intros ([i j] & -> & ?). by exists i, j.
  - intros (i & j & ? & ->). by exists (i, j).
Qed.

Lemma record_of_codes (s : TimeSeries) (v i j : Z) :
  i ∈ transin s v → j ∈ transout s v →
  ∃ n m f t,
    i = Z.of_nat (S n) ∧ j = Z.of_nat (S m) ∧
    value s !! n = Some f ∧ f ≠ v ∧ value s !! S m = Some t ∧ t ≠ v ∧
    record_of s (i, j) = (x0 s + i * dx s, f, t).
Proof.
  intros (n & f & -> & Hn & Hf & _)%transin_spec
         (m & t & -> & _ & Hm & Ht)%transout_spec.
  exists n, m, f, t. repeat split; try done.
  unfold record_of. cbn [fst snd].
  replace (Z.to_nat (Z.of_nat (S n) - 1)) with n by lia.
  rewrite Nat2Z.id.
  by rewrite (list_lookup_total_correct _ _ _ Hn),
    (list_lookup_total_correct _ _ _ Hm).
Qed.

(** The log of every state after [process], configured or not. *)
Lemma process_log (tab : GuardianTab.Tab) (segments : gmap string DataQualityFlag)
    (grddata reqdata nomdata okdata : list TimeSeries) (st : GuardianTab.State)
    (v : Z) :
  tab_wf tab →
  GuardianTab.process tab segments grddata reqdata nomdata okdata = Some st →
  GuardianTab.transitions st !! v =
  if decide (v ∈ (GuardianTab.grdstates tab).*1)
  then Some (concat ((λ d, detections d.1.1.1 v)
               <$> epochs grddata reqdata nomdata okdata))
  else None.
Proof.
  intros Hwf Hst. destruct (decide _) as [Hv|Hv].
  - destruct (process_ok tab Hwf segments grddata reqdata nomdata okdata)
      as (st' & Hst' & HT).
    rewrite Hst in Hst'. injection Hst' as <-. by apply HT.
  - unfold GuardianTab.process in Hst. fold (epochs grddata reqdata nomdata okdata) in Hst.
    assert (GuardianTab.transitions
              (GuardianTab.mkState (GuardianTab.empty_transitions tab) segments)
            !! v = None) as Hnone.
    { cbn. apply not_elem_of_list_to_map_1.
      by rewrite <- list_fmap_compose. }
    revert Hst Hnone. generalize (GuardianTab.mkState (GuardianTab.empty_transitions tab) segments).
    induction (epochs grddata reqdata nomdata okdata) as [|d eps IH];
      intros st0 Hst Hnone.
    + by injection Hst as <-.
    + cbn [foldlM] in Hst.
      destruct (GuardianTab.process_epoch tab st0 d) as [st1|] eqn:Hst1; [|done].
      cbn [mbind option_bind] in Hst. apply (IH st1 Hst).
      destruct d as [[[sd rd] nd] od]. unfold GuardianTab.process_epoch in Hst1.
      destruct (foldlM _ _ _) as [e|] eqn:He; [|done].
      cbn [mbind option_bind] in Hst1.
      destruct (Tags.ok_tag _); [|done]. injection Hst1 as <-. cbn.
      clear IH Hst.
      change (GuardianTab.ep_transitions
                (GuardianTab.mkEpoch (GuardianTab.transitions st0) ∅ ∅ ∅)
              !! v = None) in Hnone.
      revert He Hnone.
      generalize (GuardianTab.mkEpoch (GuardianTab.transitions st0) ∅ ∅ ∅).
      induction (GuardianTab.grdstates tab) as [|item items IHi];
        intros e0 He Hnone.
      * by injection He as <-.
      * cbn [foldlM] in He.
        destruct (GuardianTab.process_state tab sd rd nd e0 item)
          as [e1|] eqn:He1; [|done].
        cbn [mbind option_bind] in He. rewrite fmap_cons in Hv.
        apply not_elem_of_cons in Hv as [Hne Hv].
        apply (IHi Hv e1 He). unfold GuardianTab.process_state in He1.
        destruct (Tags.active_tag _ _); [|done]. cbn [mbind option_bind] in He1.
        destruct (GuardianTab.ep_transitions e0 !! item.1); [|done].
        cbn [mbind option_bind] in He1.
        destruct (state_transitions _ _ _); [|done].
        cbn [mbind option_bind] in He1.
        destruct (Tags.request_tag _ _); [|done]. cbn [mbind option_bind] in He1.
        destruct (Tags.nominal_tag _ _); [|done]. cbn [mbind option_bind] in He1.
        injection He1 as <-. cbn. by rewrite lookup_insert_ne.
Qed.

(** ** No transition of a state into itself *)

(** X1.  Every record that [process] logs for a state carries two codes other
    than that state, both of them samples of the observed-state series of
    one of the epochs; a log exists for configured states only. *)
Theorem logged_codes (tab : GuardianTab.Tab)
    (segments : gmap string DataQualityFlag)
    (grddata reqdata nomdata okdata : list TimeSeries) (st : GuardianTab.State)
    (v : Z) (log : list Transition) (r : Transition) :
  tab_wf tab →
  GuardianTab.process tab segments grddata reqdata nomdata okdata = Some st →
  GuardianTab.transitions st !! v = Some log → r ∈ log →
  v ∈ (GuardianTab.grdstates tab).*1 ∧ r.1.2 ≠ v ∧ r.2 ≠ v ∧
  ∃ d, d ∈ epochs grddata reqdata nomdata okdata ∧
       r.1.2 ∈ value d.1.1.1 ∧ r.2 ∈ value d.1.1.1.
Proof.
  intros Hwf Hst Hlog Hr. rewrite (process_log _ _ _ _ _ _ _ v Hwf Hst) in Hlog.
  destruct (decide _) as [Hv|]; [|done]. injection Hlog as <-.
  split; [done|].
  apply list_elem_of_In, in_concat in Hr as (l & Hl & Hr).
  apply list_elem_of_In, list_elem_of_fmap in Hl as (d & -> & Hd).
  apply list_elem_of_In, detections_elem in Hr as (i & j & Hij & ->).
  destruct (record_of_codes d.1.1.1 v i j
              (elem_of_zip_l _ _ _ _ Hij) (elem_of_zip_r _ _ _ _ Hij))
    as (n & m & f & t & _ & _ & Hn & Hf & Hm & Ht & ->).
  cbn [fst snd]. repeat split; try done.
  exists d. split; [done|]. split; by eapply list_elem_of_lookup_2.
Qed.

Lemma scenario_state_eq :
  GuardianTab.process scenario_tab ∅ [scenario] [scenario] [scenario] [scenario]
  = Some scenario_state.
Proof. by vm_compute. Qed.

Lemma logged_codes_witness :
  2 ∈ (GuardianTab.grdstates scenario_tab).*1 ∧
  (3, 1, 1).1.2 ≠ 2 ∧ (3, 1, 1).2 ≠ 2 ∧
  ∃ d, d ∈ epochs [scenario] [scenario] [scenario] [scenario] ∧
       (3, 1, 1).1.2 ∈ value d.1.1.1 ∧ (3, 1, 1).2 ∈ value d.1.1.1.
Proof.
  apply (logged_codes scenario_tab ∅ [scenario] [scenario] [scenario]
           [scenario] scenario_state 2 [(3, 1, 1)] (3, 1, 1)).
  - exact scenario_tab_wf.
  - exact scenario_state_eq.
  - by vm_compute.
  - left.
Defined.

(** ** The order of the records *)

Lemma rising_from_sorted (v : Z) (l : list Z) (i prev : Z) :
  StronglySorted Z.lt (rising_from v i prev l).
Proof.
  revert i prev. induction l as [|y l IH]; intros i prev; cbn [rising_from].
  - constructor.
  - destruct (negb (prev =? v) && (y =? v)); [|apply IH].
    constructor; [apply IH|]. apply Forall_forall.
    intros k (n & x & -> & _)%rising_from_spec. lia.
Qed.

Lemma zip_sorted (l1 l2 : list Z) :
  StronglySorted Z.lt l1 →
  StronglySorted (λ p q : Z * Z, p.1 < q.1) (zip l1 l2).
Proof.
  intros Hl1. revert l2. induction Hl1 as [|a l1 Hl1 IH Ha]; intros [|b l2];
    try constructor; [apply IH|].
  apply Forall_forall. intros [c d] Hcd%elem_of_zip_l.
  rewrite Forall_forall in Ha. by apply Ha.
Qed.

(** Within one series with a positive step the records of a state are
    in strictly increasing order of time. *)
Lemma detections_sorted (s : TimeSeries) (v : Z) :
  0 < dx s → StronglySorted earlier (detections s v).
Proof.
  intros Hdx. unfold detections.
  assert (StronglySorted (λ p q : Z * Z, p.1 < q.1)
            (zip (transin s v) (transout s v))) as Hzip.
  { apply zip_sorted. rewrite transin_eq.
    destruct (value s); [constructor|apply rising_from_sorted]. }
  induction Hzip as [|p l _ IH Hp]; [constructor|].
  rewrite fmap_cons. constructor; [done|].
  apply Forall_fmap, (Forall_impl _ _ _ Hp). intros q Hq.
  unfold earlier, record_of. cbn [fst snd] in *.
  apply Z.add_lt_mono_l, Z.mul_lt_mono_pos_r; done.
Qed.

(** The times of the records of a series lie inside its span. *)
Lemma detections_span (s : TimeSeries) (v : Z) (r : Transition) :
  0 < dx s → r ∈ detections s v → x0 s < r.1.1 < span_end s.
Proof.
  intros Hdx (i & j & Hij & ->)%detections_elem.
  apply elem_of_zip_l, transin_spec in Hij
    as (n & x & -> & _ & _ & Hn%lookup_lt_Some).
  unfold record_of, span_end. cbn [fst snd]. nia.
Qed.

Lemma concat_sorted {A : Type} (R : A → A → Prop) (ls : list (list A)) :
  Forall (StronglySorted R) ls →
  (∀ (p q : nat) l1 l2 x y, (p < q)%nat → ls !! p = Some l1 → ls !! q = Some l2 →
     x ∈ l1 → y ∈ l2 → R x y) →
  StronglySorted R (concat ls).
Proof.
  induction 1 as [|l ls Hl _ IH]; intros Hord; [constructor|].
  cbn [concat]. apply StronglySorted_app. repeat split.
  - intros x y Hx Hy. apply list_elem_of_In, in_concat in Hy as (l2 & Hl2 & Hy).
    apply list_elem_of_In, list_elem_of_lookup in Hl2 as (q & Hq).
    apply (Hord 0%nat (S q) l l2); [lia|done|done|done|].
    by apply list_elem_of_In.
  - done.
  - apply IH. intros p q l1 l2 x y Hpq Hp Hq.
    apply (Hord (S p) (S q)); [lia|done|done].
Qed.

(** X2.  When the epochs follow one another in time, the log that [process]
    leaves for a state is in strictly increasing order of time: the
    records of each epoch are in order, and those of an earlier epoch
    precede those of a later one. *)
Theorem log_chronological (tab : GuardianTab.Tab)
    (segments : gmap string DataQualityFlag)
    (grddata reqdata nomdata okdata : list TimeSeries) (st : GuardianTab.State)
    (v : Z) (log : list Transition) :
  tab_wf tab →
  chronological (epochs grddata reqdata nomdata okdata) →
  GuardianTab.process tab segments grddata reqdata nomdata okdata = Some st →
  GuardianTab.transitions st !! v = Some log →
  StronglySorted earlier log.
Proof.
  intros Hwf [Hdx Hord] Hst Hlog.
  rewrite (process_log _ _ _ _ _ _ _ v Hwf Hst) in Hlog.
  destruct (decide _); [|done]. injection Hlog as <-.
  apply concat_sorted.
  - apply Forall_fmap, Forall_forall. intros d Hd.
    by apply detections_sorted, Hdx.
  - intros p q l1 l2 x y Hpq Hp Hq Hx Hy.
    rewrite list_lookup_fmap in Hp, Hq.
    destruct (epochs _ _ _ _ !! p) as [d1|] eqn:Hd1; [|done].
    destruct (epochs _ _ _ _ !! q) as [d2|] eqn:Hd2; [|done].
    injection Hp as <-. injection Hq as <-.
    pose proof (Hord p q d1 d2 Hpq Hd1 Hd2) as Hspan.
    apply detections_span in Hx, Hy;
      [|by eapply Hdx, list_elem_of_lookup_2..].
    unfold earlier. lia.
Qed.

Lemma log_chronological_witness :
  StronglySorted earlier [(1, 1, 1); (3, 1, 1); (6, 1, 1); (8, 1, 1)].
Proof.
  apply (log_chronological scenario_tab ∅ [visits1; visits2]
           [visits1; visits2] [visits1; visits2] [visits1; visits2]
           (default (GuardianTab.mkState ∅ ∅)
              (GuardianTab.process scenario_tab ∅ [visits1; visits2]
                 [visits1; visits2] [visits1; visits2] [visits1; visits2]))
           2 [(1, 1, 1); (3, 1, 1); (6, 1, 1); (8, 1, 1)]).
  - exact scenario_tab_wf.
  - split.
    + intros d [->|Hd%list_elem_of_singleton]%elem_of_cons;
        [|rewrite Hd]; reflexivity.
    + intros p q d1 d2 Hpq Hp Hq.
      destruct p as [|[|p]], q as [|[|q]]; try lia; try done.
      injection Hp as <-. injection Hq as <-. by vm_compute.
  - by vm_compute.
  - by vm_compute.
Defined.

(** ** Epoch after epoch *)

Lemma epochs_app (g1 r1 n1 o1 g2 r2 n2 o2 : list TimeSeries) :
  length g1 = length r1 → length g1 = length n1 → length g1 = length o1 →
  epochs (g1 ++ g2) (r1 ++ r2) (n1 ++ n2) (o1 ++ o2)
  = epochs g1 r1 n1 o1 ++ epochs g2 r2 n2 o2.
Proof.
  intros Hr Hn Ho. unfold epochs.
  rewrite !zip_with_app; try done; rewrite ?length_zip_with; lia.
Qed.

(** X3.  The log of a configured state after [process] has run on the epochs
    of a first list followed by those of a second is the log of the first
    list followed by the log of the second. *)
Theorem logs_append (tab : GuardianTab.Tab)
    (segments segments' : gmap string DataQualityFlag)
    (g1 r1 n1 o1 g2 r2 n2 o2 : list TimeSeries) (v : Z) :
  tab_wf tab → v ∈ (GuardianTab.grdstates tab).*1 →
  length g1 = length r1 → length g1 = length n1 → length g1 = length o1 →
  ∃ st1 st2 st log1 log2,
    GuardianTab.process tab segments g1 r1 n1 o1 = Some st1 ∧
    GuardianTab.process tab segments' g2 r2 n2 o2 = Some st2 ∧
    GuardianTab.process tab segments
      (g1 ++ g2) (r1 ++ r2) (n1 ++ n2) (o1 ++ o2) = Some st ∧
    GuardianTab.transitions st1 !! v = Some log1 ∧
    GuardianTab.transitions st2 !! v = Some log2 ∧
    GuardianTab.transitions st !! v = Some (log1 ++ log2).
Proof.
  intros Hwf Hv Hr Hn Ho.
  destruct (process_ok tab Hwf segments g1 r1 n1 o1) as (st1 & Hst1 & HT1).
  destruct (process_ok tab Hwf segments' g2 r2 n2 o2) as (st2 & Hst2 & HT2).
  destruct (process_ok tab Hwf segments
              (g1 ++ g2) (r1 ++ r2) (n1 ++ n2) (o1 ++ o2)) as (st & Hst & HT).
  exists st1, st2, st. do 2 eexists.
  split; [done|]. split; [done|]. split; [done|].
  split; [by apply HT1|]. split; [by apply HT2|].
  rewrite (HT v Hv), epochs_app by done.
  by rewrite fmap_app, concat_app.
Qed.

Lemma logs_append_witness :
  ∃ st1 st2 st log1 log2,
    GuardianTab.process scenario_tab ∅
      [scenario] [scenario] [scenario] [scenario] = Some st1 ∧
    GuardianTab.process scenario_tab ∅
      [two_state_series] [two_state_series] [two_state_series]
      [two_state_series] = Some st2 ∧
    GuardianTab.process scenario_tab ∅
      ([scenario] ++ [two_state_series]) ([scenario] ++ [two_state_series])
      ([scenario] ++ [two_state_series]) ([scenario] ++ [two_state_series])
    = Some st ∧
    GuardianTab.transitions st1 !! 2 = Some log1 ∧
    GuardianTab.transitions st2 !! 2 = Some log2 ∧
    GuardianTab.transitions st !! 2 = Some (log1 ++ log2).
Proof.
  apply (logs_append scenario_tab ∅ ∅ [scenario] [scenario] [scenario]
           [scenario] [two_state_series] [two_state_series]
           [two_state_series] [two_state_series] 2).
  - exact scenario_tab_wf.
  - right. left.
  - reflexivity.
  - reflexivity.
  - reflexivity.
Defined.

(** ** The number of records *)

(** X4.  In every series the entries into a state and the exits from it
    alternate: there is one entry more than exits when the series ends in
    the state without beginning in it, one exit more when it begins in
    the state without ending in it, and as many otherwise.  The loop logs
    as many records as the smaller of the two numbers. *)
Theorem record_count (s : TimeSeries) (v : Z) :
  (length (transin s v)
   + (if bool_decide (head (value s) = Some v) then 1 else 0)
   = length (transout s v)
     + (if bool_decide (last (value s) = Some v) then 1 else 0))%nat ∧
  ∃ log, state_transitions s v [] = Some log ∧
         length log = (length (transin s v) `min` length (transout s v))%nat.
Proof.
  split.
  - rewrite transin_eq, transout_eq. destruct (value s) as [|x rest]; [done|].
    pose proof (rising_falling_count v rest 1 x) as Hcount.
    rewrite last_cons. cbn [head].
    assert (∀ a : Z, bool_decide (Some a = Some v) = (a =? v)) as Hdec.
    { intros a. destruct (Z.eqb_spec a v) as [->|Hne];
        [by rewrite bool_decide_true|rewrite bool_decide_false; congruence]. }
    destruct (last rest) as [z|]; rewrite !Hdec; exact Hcount.
  - exists (detections s v). split; [apply state_transitions_eq|].
    apply detections_length.
Qed.

(** ** Stripping *)

Lemma lstrip_head (chars s : string) :
  match PyStr.lstrip chars s with
  | EmptyString => True
  | String c _ => PyStr.char_in c chars = false
  end.
Proof.
  induction s as [|c s IH]; [done|]. cbn [PyStr.lstrip].
  by destruct (PyStr.char_in c chars) eqn:Hc.
Qed.

Lemma lstrip_fixed (chars s : string) :
  match s with
  | EmptyString => True
  | String c _ => PyStr.char_in c chars = false
  end →
  PyStr.lstrip chars s = s.
Proof. destruct s as [|c s]; [done|]. cbn. by intros ->. Qed.

Lemma rstrip_head (chars : string) (c : Ascii.ascii) (s : string) :
  PyStr.char_in c chars = false →
  ∃ rest, PyStr.rstrip chars (String c s) = String c rest.
Proof.
  intros Hc. cbn [PyStr.rstrip]. rewrite Hc.
  destruct (PyStr.rstrip chars s); eauto.
Qed.

Lemma rstrip_idem (chars s : string) :
  PyStr.rstrip chars (PyStr.rstrip chars s) = PyStr.rstrip chars s.
Proof.
  induction s as [|c s IH]; [done|]. cbn [PyStr.rstrip].
  destruct (PyStr.rstrip chars s) as [|d rest] eqn:Hr.
  - destruct (PyStr.char_in c chars) eqn:Hc; [done|]. cbn. by rewrite Hc.
  - cbn [PyStr.rstrip]. cbn [PyStr.rstrip] in IH.
    destruct (PyStr.rstrip chars rest) as [|d' rest']; by rewrite IH.
Qed.

(** Stripping twice is stripping once. *)
Lemma strip_idem (chars s : string) :
  PyStr.strip chars (PyStr.strip chars s) = PyStr.strip chars s.
Proof.
  unfold PyStr.strip. pose proof (lstrip_head chars s) as Hhead.
  destruct (PyStr.lstrip chars s) as [|c t]; [done|].
  destruct (rstrip_head chars c t Hhead) as [rest Hrest].
  rewrite Hrest, lstrip_fixed, <- Hrest by done. apply rstrip_idem.
Qed.

(** ** Ordered dictionaries *)

Lemma odict_set_elem (d : list (Z * string)) (k : Z) (v : string)
    (kv : Z * string) :
  kv ∈ FromIni.odict_set d k v → kv = (k, v) ∨ kv ∈ d.
Proof.
  induction d as [|kv' d IH]; cbn [FromIni.odict_set].
  - intros ->%list_elem_of_singleton. by left.
  - destruct (kv'.1 =? k).
    + intros [->|?]%elem_of_cons; [by left|right; by right].
    + intros [->|[->|?]%IH]%elem_of_cons; [right; left|by left|right; by right].
Qed.

Lemma odict_set_keys (d : list (Z * string)) (k : Z) (v : string) :
  (FromIni.odict_set d k v).*1
  = if decide (k ∈ d.*1) then d.*1 else d.*1 ++ [k].
Proof.
  induction d as [|kv d IH]; cbn [FromIni.odict_set]; [done|].
  rewrite fmap_cons. destruct (Z.eqb_spec kv.1 k) as [<-|Hne].
  - by rewrite decide_True by left.
  - rewrite fmap_cons, IH. destruct (decide (k ∈ d.*1)).
    + by rewrite decide_True by by right.
    + rewrite decide_False; [done|]. intros [?|?]%elem_of_cons; congruence.
Qed.

Lemma odict_set_NoDup (d : list (Z * string)) (k : Z) (v : string) :
  NoDup d.*1 → NoDup (FromIni.odict_set d k v).*1.
Proof.
  intros Hd. rewrite odict_set_keys. destruct (decide _); [done|].
  apply NoDup_app. repeat split; [done| |apply NoDup_singleton].
  intros x Hx ->%list_elem_of_singleton. done.
Qed.

Lemma odict_get_Some (d : list (Z * string)) (k : Z) (v : string) :
  NoDup d.*1 → (k, v) ∈ d → FromIni.odict_get d k = Some v.
Proof.
  induction d as [|kv d IH]; intros Hd Hin; [by apply elem_of_nil in Hin|].
  rewrite fmap_cons in Hd. apply NoDup_cons in Hd as [Hkv Hd].
  cbn [FromIni.odict_get]. apply elem_of_cons in Hin as [<-|Hin].
  - cbn. by rewrite Z.eqb_refl.
  - destruct (Z.eqb_spec kv.1 k) as [Heq|_]; [|by apply IH].
    exfalso. apply Hkv. rewrite Heq. by apply (list_elem_of_fmap_2 fst _ (k, v)).
Qed.

Lemma odict_get_None (d : list (Z * string)) (k : Z) :
  k ∉ d.*1 → FromIni.odict_get d k = None.
Proof.
  induction d as [|kv d IH]; [done|]. rewrite fmap_cons.
  intros [Hne Hk]%not_elem_of_cons. cbn [FromIni.odict_get].
  destruct (Z.eqb_spec kv.1 k); [done|by apply IH].
Qed.

(** ** Reading the states *)

Section read_states.
Context (int_ : string → option Z).

Lemma int_items_cons (item : string * string) (items : list (string * string)) :
  int_items int_ (item :: items)
  = match int_ item.1 with
    | Some k => (k, item.2) :: int_items int_ items
    | None => int_items int_ items
    end.
Proof. unfold int_items. cbn. by destruct (int_ item.1). Qed.

Lemma read_state_eq (acc : list (Z * string) * list bool)
    (item : string * string) :
  FromIni.read_state int_ acc item
  = match int_ item.1 with
    | None => Some acc
    | Some k =>
        if decide (item.2 = "") then None
        else Some (FromIni.odict_set acc.1 k (PyStr.strip "*" item.2),
                   acc.2 ++ [displayed item.2])
    end.
Proof.
  unfold FromIni.read_state. destruct (int_ item.1); [|done].
  by destruct item.2.
Qed.

(** The loop over the items: it raises for an integer key with an empty
    value, and otherwise stores the integer items in their order. *)
Lemma read_states_fold (items : list (string * string))
    (gs0 : list (Z * string)) (plot0 : list bool) :
  foldlM (FromIni.read_state int_) (gs0, plot0) items =
  if decide (Forall (λ kn : Z * string, kn.2 ≠ "") (int_items int_ items))
  then Some
         (foldl (λ d kn, FromIni.odict_set d kn.1 (PyStr.strip "*" kn.2))
            gs0 (int_items int_ items),
          plot0 ++ ((λ kn : Z * string, displayed kn.2) <$> int_items int_ items))
  else None.
Proof.
  revert gs0 plot0. induction items as [|item items IH]; intros gs0 plot0.
  - cbn. by rewrite app_nil_r.
  - rewrite int_items_cons. cbn [foldlM]. rewrite read_state_eq.
    destruct (int_ item.1) as [k|]; [|apply IH].
    destruct (decide (item.2 = "")) as [Hname|Hname]; cbn [mbind option_bind].
    + rewrite decide_False; [done|]. by intros [? _]%Forall_cons.
    + rewrite IH. cbn [fst snd].
      destruct (decide (Forall _ (int_items int_ items))) as [Hall|Hnall].
      * rewrite decide_True by (by constructor).
        cbn [foldl fmap list_fmap fst snd].
        by rewrite <- app_assoc.
      * rewrite decide_False; [done|]. by intros [_ ?]%Forall_cons.
Qed.

Lemma stored_NoDup (pitems : list (Z * string)) (gs0 : list (Z * string)) :
  NoDup gs0.*1 →
  NoDup (foldl (λ d kn, FromIni.odict_set d kn.1 (PyStr.strip "*" kn.2))
           gs0 pitems).*1.
Proof.
  revert gs0. induction pitems as [|kn pitems IH]; intros gs0 Hgs0; [done|].
  cbn [foldl]. by apply IH, odict_set_NoDup.
Qed.

Lemma stored_elem (pitems : list (Z * string)) (gs0 : list (Z * string))
    (kv : Z * string) :
  kv ∈ foldl (λ d kn, FromIni.odict_set d kn.1 (PyStr.strip "*" kn.2))
         gs0 pitems →
  kv ∈ gs0 ∨ ∃ raw, (kv.1, raw) ∈ pitems ∧ kv.2 = PyStr.strip "*" raw.
Proof.
  revert gs0. induction pitems as [|kn pitems IH]; intros gs0 Hkv; [by left|].
  cbn [foldl] in Hkv. apply IH in Hkv as [Hkv|(raw & ? & ?)].
  - apply odict_set_elem in Hkv as [->|?]; [right|by left].
    exists kn.2. split; [|done]. destruct kn. left.
  - right. exists raw. split; [by right|done].
Qed.

Lemma stored_keys (pitems : list (Z * string)) (gs0 : list (Z * string))
    (k : Z) :
  k ∈ (foldl (λ d kn, FromIni.odict_set d kn.1 (PyStr.strip "*" kn.2))
         gs0 pitems).*1 ↔
  k ∈ gs0.*1 ∨ k ∈ pitems.*1.
Proof.
  revert gs0. induction pitems as [|kn pitems IH]; intros gs0.
  - cbn. split; [by left|]. by intros [?|?%elem_of_nil].
  - cbn [foldl]. rewrite IH, odict_set_keys, fmap_cons, elem_of_cons.
    destruct (decide (kn.1 ∈ gs0.*1)); [|rewrite elem_of_app, list_elem_of_singleton].
    + split; [tauto|]. intros [?|[->|?]]; tauto.
    + tauto.
Qed.

(** With distinct integer keys the states are stored in the order of
    the items. *)
Lemma stored_distinct (pitems : list (Z * string)) (gs0 : list (Z * string)) :
  NoDup (gs0.*1 ++ pitems.*1) →
  foldl (λ d kn, FromIni.odict_set d kn.1 (PyStr.strip "*" kn.2)) gs0 pitems
  = gs0 ++ ((λ kn : Z * string, (kn.1, PyStr.strip "*" kn.2)) <$> pitems).
Proof.
  revert gs0. induction pitems as [|kn pitems IH]; intros gs0 Hnd.
  - cbn. by rewrite app_nil_r.
  - cbn [foldl]. rewrite fmap_cons in Hnd.
    assert (kn.1 ∉ gs0.*1) as Hfresh.
    { apply NoDup_app in Hnd as (_ & Hdisj & _). intros Hin.
      apply (Hdisj _ Hin). left. }
    assert (FromIni.odict_set gs0 kn.1 (PyStr.strip "*" kn.2)
            = gs0 ++ [(kn.1, PyStr.strip "*" kn.2)]) as ->.
    { clear -Hfresh. induction gs0 as [|kv gs0 IH]; [done|].
      rewrite fmap_cons in Hfresh. apply not_elem_of_cons in Hfresh as [Hne ?].
      cbn [FromIni.odict_set].
      destruct (Z.eqb_spec kv.1 kn.1); [congruence|]. cbn. by rewrite IH. }
    rewrite IH.
    + by rewrite <- app_assoc.
    + rewrite fmap_app. cbn [fmap list_fmap fst]. by rewrite <- app_assoc.
Qed.
End read_states.

(** ** What [from_ini] builds *)

Lemma getitem_from_end {A : Type} (l suffix : list A) (x : A) :
  getitem (l ++ x :: suffix) (- Z.of_nat (length suffix) - 1) = Some x.
Proof.
  unfold getitem. destruct (Z.leb_spec 0 (- Z.of_nat (length suffix) - 1));
    [lia|].
  rewrite length_app, length_cons.
  destruct (Z.leb_spec 0 (Z.of_nat (length l + S (length suffix))
                          + (- Z.of_nat (length suffix) - 1))); [|lia].
  replace (Z.to_nat _) with (length l) by lia.
  by rewrite list_lookup_middle.
Qed.

(** The names kept for the plot are those whose flag is set, last state
    first, when there is one flag for every name. *)
Lemma labels_from_reverse (vals : list string) (plot suffix : list bool) :
  length vals = length plot →
  FromIni.labels_from (Z.of_nat (length suffix)) (reverse vals) (plot ++ suffix)
  = Some (reverse (filter (λ p : string * bool, p.2 = true) (zip vals plot)).*1).
Proof.
  revert plot suffix. induction vals as [|l vals IH] using rev_ind;
    intros plot suffix Hlen.
  - by destruct plot.
  - destruct plot as [|p plot _] using rev_ind;
      [rewrite length_app in Hlen; cbn in Hlen; lia|].
    rewrite !length_app in Hlen. cbn [length] in Hlen.
    rewrite reverse_snoc. cbn [FromIni.labels_from].
    rewrite <- app_assoc. cbn [app]. rewrite getitem_from_end.
    cbn [mbind option_bind].
    replace (Z.of_nat (length suffix) + 1)
      with (Z.of_nat (length (p :: suffix))) by (cbn [length]; lia).
    rewrite IH by lia. cbn [mbind option_bind].
    rewrite zip_with_app by lia. rewrite filter_app, fmap_app, reverse_app.
    cbn [zip_with]. rewrite filter_cons, filter_nil. cbn [snd].
    destruct p; [rewrite decide_True by done|rewrite decide_False by done];
      done.
Qed.

Section built.
Context (int_ : string → option Z).

Lemma from_ini_Some (ifo node : string) (items : list (string * string))
    (transitions : option string) (t : FromIni.IniTab) :
  FromIni.from_ini int_ ifo node items transitions = Some t →
  ∃ plot,
    FromIni.read_states int_ items = Some (FromIni.grdstates t, plot) ∧
    FromIni.read_transstates int_ transitions (FromIni.grdstates t)
      = Some (FromIni.transstates t) ∧
    Tags.segmenttag ifo node = Some (FromIni.segmenttag t) ∧
    FromIni.labels_from 0 (reverse (FromIni.grdstates t).*2) plot
      = Some (FromIni.labels t) ∧
    mapM (λ name, pct_format (FromIni.segmenttag t) [PStr name])
      (FromIni.labels t) = Some (FromIni.flags t).
Proof.
  unfold FromIni.from_ini.
  destruct (FromIni.read_states int_ items) as [[gs plot]|]; [|done].
  cbn [mbind option_bind fst snd].
  destruct (FromIni.read_transstates int_ transitions gs) as [ts|] eqn:Hts;
    [|done].
  cbn [mbind option_bind].
  destruct (Tags.segmenttag ifo node) as [tag|]; [|done].
  cbn [mbind option_bind].
  destruct (FromIni.labels_from 0 (reverse gs.*2) plot) as [ls|] eqn:Hls;
    [|done].
  cbn [mbind option_bind].
  destruct (mapM _ ls) as [fs|] eqn:Hfs; [|done].
  cbn [mbind option_bind].
  destruct (pct_format "GRD_%s_SEGMENTS" _); [|done]. cbn [mbind option_bind].
  destruct (pct_format "%s Guardian %s state" _); [|done].
  cbn [mbind option_bind]. intros [= <-]. exists plot. cbn [FromIni.grdstates FromIni.transstates FromIni.segmenttag FromIni.labels FromIni.flags]. auto.
Qed.

End built.

(** X5.  The tab that [from_ini] builds has distinct state codes, which are
    the integer keys of the section; every name it stores is the value of
    an item of its code with the asterisks at both ends taken away, and
    taking them away again, as [write_state_html] does, changes nothing;
    for names of the interferometer and the node without [%], the tab
    meets what the theorems on [process] ask of it. *)
Theorem from_ini_well_formed (int_ : string → option Z) (ifo node : string)
    (items : list (string * string)) (transitions : option string)
    (t : FromIni.IniTab) :
  FromIni.from_ini int_ ifo node items transitions = Some t →
  NoDup (FromIni.grdstates t).*1 ∧
  (∀ k, k ∈ (FromIni.grdstates t).*1 ↔ k ∈ (int_items int_ items).*1) ∧
  (∀ k name, (k, name) ∈ FromIni.grdstates t →
     PyStr.strip "*" name = name ∧
     ∃ raw, (k, raw) ∈ int_items int_ items ∧ name = PyStr.strip "*" raw) ∧
  (percent_free ifo = true → percent_free node = true →
   tab_wf (FromIni.to_tab t)).
Proof.
  intros (plot & Hread & _ & Htag & _)%from_ini_Some.
  unfold FromIni.read_states in Hread. rewrite read_states_fold in Hread.
  destruct (decide _) as [Hall|]; [|done]. injection Hread as Hgs _.
  assert (NoDup (FromIni.grdstates t).*1) as Hnd
    by (rewrite <- Hgs; apply stored_NoDup; constructor).
  split; [done|]. split; [|split].
  - intros k. rewrite <- Hgs, stored_keys. split; [|by right].
    by intros [?%elem_of_nil|?].
  - intros k name Hin. rewrite <- Hgs in Hin.
    apply stored_elem in Hin as [?%elem_of_nil|(raw & Hraw & Hname)]; [done|].
    cbn [fst snd] in *. split; [|by exists raw].
    rewrite Hname. apply strip_idem.
  - intros Hifo Hnode. split; [done|]. by exists ifo, node.
Qed.

Lemma scenario_ini_eq :
  FromIni.from_ini decimal_int "H1" "ISC_LOCK" scenario_items None
  = Some scenario_ini.
Proof. by vm_compute. Qed.

Lemma from_ini_well_formed_witness :
  NoDup (FromIni.grdstates scenario_ini).*1 ∧
  (∀ k, k ∈ (FromIni.grdstates scenario_ini).*1 ↔
        k ∈ (int_items decimal_int scenario_items).*1) ∧
  (∀ k name, (k, name) ∈ FromIni.grdstates scenario_ini →
     PyStr.strip "*" name = name ∧
     ∃ raw, (k, raw) ∈ int_items decimal_int scenario_items ∧
            name = PyStr.strip "*" raw) ∧
  (percent_free "H1" = true → percent_free "ISC_LOCK" = true →
   tab_wf (FromIni.to_tab scenario_ini)).
Proof.
  apply (from_ini_well_formed decimal_int "H1" "ISC_LOCK" scenario_items None).
  exact scenario_ini_eq.
Defined.

(** ** A state without a name *)

Lemma elem_of_int_items (int_ : string → option Z)
    (items : list (string * string)) (k : Z) (raw : string) :
  (k, raw) ∈ int_items int_ items ↔
  ∃ item, item ∈ items ∧ int_ item.1 = Some k ∧ item.2 = raw.
Proof.
  unfold int_items. rewrite list_elem_of_omap. split.
  - intros (item & Hin & Hk). destruct (int_ item.1) as [k'|] eqn:Hint; [|done].
    injection Hk as -> <-. by exists item.
  - intros (item & Hin & Hk & <-). exists item. split; [done|]. by rewrite Hk.
Qed.

Lemma read_states_None (int_ : string → option Z)
    (items : list (string * string)) :
  FromIni.read_states int_ items = None ↔
  ∃ item, item ∈ items ∧ is_Some (int_ item.1) ∧ item.2 = "".
Proof.
  unfold FromIni.read_states. rewrite read_states_fold.
  destruct (decide _) as [Hall|Hnall].
  - split; [done|]. intros (item & Hin & [k Hk] & Hname). exfalso.
    rewrite Forall_forall in Hall. apply (Hall (k, "")); [|done].
    apply elem_of_int_items. by exists item.
  - split; [|done]. intros _.
    apply not_Forall_Exists, Exists_exists in Hnall
      as ([k raw] & Hin & Hraw); [|apply _].
    apply elem_of_int_items in Hin as (item & Hin & Hk & <-).
    exists item. repeat split; [done|by exists k|].
    cbn in Hraw. by destruct (decide (item.2 = "")); [|exfalso; auto].
Qed.

(** X6.  [from_ini] raises on every section that holds an integer key with an
    empty value, wherever the item stands, and the loop over the items
    raises on no other section; a key that is no integer is passed
    over. *)
Theorem read_states_raises (int_ : string → option Z)
    (items : list (string * string)) :
  (FromIni.read_states int_ items = None ↔
   ∃ item, item ∈ items ∧ is_Some (int_ item.1) ∧ item.2 = "") ∧
  (FromIni.read_states int_ items = None →
   ∀ ifo node transitions,
     FromIni.from_ini int_ ifo node items transitions = None).
Proof.
  split; [apply read_states_None|].
  intros Hnone ifo node transitions. unfold FromIni.from_ini.
  by rewrite Hnone.
Qed.

Lemma read_states_raises_witness :
  FromIni.read_states decimal_int nameless_items = None ∧
  FromIni.from_ini decimal_int "H1" "ISC_LOCK" nameless_items None = None.
Proof.
  split; [reflexivity|].
  apply (proj2 (read_states_raises decimal_int nameless_items)).
  reflexivity.
Defined.

(** ** The labels and flags of the plot *)

Lemma kept_names (names : list string) :
  (filter (λ p : string * bool, p.2 = true)
     (zip (PyStr.strip "*" <$> names) (displayed <$> names))).*1
  = PyStr.strip "*" <$> filter (λ n, displayed n = true) names.
Proof.
  induction names as [|n names IH]; [done|].
  cbn [fmap list_fmap zip_with]. rewrite !filter_cons. cbn [snd].
  destruct (decide (displayed n = true)); cbn [fmap list_fmap fst];
    by rewrite <- IH.
Qed.

Lemma mapM_total {A B : Type} (f : A → option B) (g : A → B) (l : list A) :
  (∀ x, f x = Some (g x)) → mapM f l = Some (g <$> l).
Proof.
  intros Hfg. induction l as [|x l IH]; [done|].
  cbn. rewrite Hfg, IH. done.
Qed.

(** X7.  For a section whose integer keys are distinct, the labels of the
    plot are the names of the states that are not marked with a leading
    [*], the last state first, and for names of the interferometer and
    the node without [%] the flags are the tags of these names. *)
Theorem from_ini_labels (int_ : string → option Z) (ifo node : string)
    (items : list (string * string)) (transitions : option string)
    (t : FromIni.IniTab) :
  FromIni.from_ini int_ ifo node items transitions = Some t →
  NoDup (int_items int_ items).*1 →
  FromIni.labels t
  = reverse (PyStr.strip "*"
               <$> filter (λ n, displayed n = true) (int_items int_ items).*2) ∧
  (percent_free ifo = true → percent_free node = true →
   FromIni.flags t
   = (λ name, ifo +:+ ":" +:+ node +:+ " " +:+ name) <$> FromIni.labels t).
Proof.
  intros (plot & Hread & _ & Htag & Hls & Hfs)%from_ini_Some Hnd.
  unfold FromIni.read_states in Hread. rewrite read_states_fold in Hread.
  destruct (decide _) as [Hall|]; [|done]. injection Hread as Hgs Hplot.
  rewrite stored_distinct in Hgs by done. cbn [app] in Hgs, Hplot.
  split.
  - rewrite <- Hgs, <- Hplot in Hls.
    rewrite <- list_fmap_compose in Hls.
    assert ((λ kn : Z * string, displayed kn.2) <$> int_items int_ items
            = displayed <$> (int_items int_ items).*2) as Hp
      by by rewrite <- list_fmap_compose.
    assert ((snd ∘ λ kn : Z * string, (kn.1, PyStr.strip "*" kn.2))
              <$> int_items int_ items
            = PyStr.strip "*" <$> (int_items int_ items).*2) as Hv
      by by rewrite <- list_fmap_compose.
    rewrite Hp, Hv in Hls.
    pose proof (labels_from_reverse
                  (PyStr.strip "*" <$> (int_items int_ items).*2)
                  (displayed <$> (int_items int_ items).*2) []) as Hrev.
    rewrite app_nil_r in Hrev. change (Z.of_nat (length [])) with 0 in Hrev.
    rewrite Hrev in Hls by by rewrite !length_fmap.
    injection Hls as <-. by rewrite kept_names.
  - intros Hifo Hnode. rewrite segmenttag_eq in Htag. injection Htag as Htag.
    rewrite <- Htag in Hfs.
    rewrite (mapM_total _ (λ name, ifo +:+ ":" +:+ node +:+ " " +:+ name))
      in Hfs; [by injection Hfs|].
    intros name. by apply format_segmenttag.
Qed.

Lemma from_ini_labels_witness :
  FromIni.labels scenario_ini
  = reverse (PyStr.strip "*"
               <$> filter (λ n, displayed n = true)
                     (int_items decimal_int scenario_items).*2) ∧
  (percent_free "H1" = true → percent_free "ISC_LOCK" = true →
   FromIni.flags scenario_ini
   = (λ name, "H1" +:+ ":" +:+ "ISC_LOCK" +:+ " " +:+ name)
       <$> FromIni.labels scenario_ini).
Proof.
  apply (from_ini_labels decimal_int "H1" "ISC_LOCK" scenario_items None).
  - exact scenario_ini_eq.
  - apply (bool_decide_unpack _). by vm_compute.
Defined.

(** ** The transitions table *)

Lemma mapM_id_imap {A B : Type} (f : nat → A → option B) (g : nat → A → B)
    (l : list A) :
  (∀ i x, l !! i = Some x → f i x = Some (g i x)) →
  mapM id (imap f l) = Some (imap g l).
Proof.
  revert f g. induction l as [|x l IH]; intros f g Hfg; [done|].
  rewrite !imap_cons. cbn [mapM].
  specialize (IH (f ∘ S) (g ∘ S) (λ i y Hi, Hfg (S i) y Hi)).
  unfold id in *. rewrite (Hfg 0%nat x eq_refl). cbn [mbind option_bind].
  by rewrite IH.
Qed.

Lemma mapM_id_imap_None {A B : Type} (f : nat → A → option B) (l : list A)
    (i : nat) (x : A) :
  l !! i = Some x → f i x = None → mapM id (imap f l) = None.
Proof.
  revert f i. induction l as [|y l IH]; intros f i Hi Hf; [done|].
  rewrite imap_cons. cbn [mapM]. destruct i as [|i].
  - injection Hi as ->. unfold id. by rewrite Hf.
  - specialize (IH (f ∘ S) i Hi Hf). unfold id in *.
    destruct (f 0%nat y); [|done]. cbn [mbind option_bind].
    by rewrite IH.
Qed.

Lemma detections_other (s : TimeSeries) (v : Z) (r : Transition) :
  r ∈ detections s v → r.1.2 ≠ v ∧ r.2 ≠ v.
Proof.
  intros (i & j & Hij & ->)%detections_elem.
  destruct (record_of_codes s v i j
              (elem_of_zip_l _ _ _ _ Hij) (elem_of_zip_r _ _ _ _ Hij))
    as (n & m & f & t & _ & _ & _ & Hf & _ & Ht & ->).
  done.
Qed.

Lemma count_from_zero (log : list Transition) (v : Z) :
  (∀ r, r ∈ log → r.1.2 ≠ v) → StateTable.count_from log v = 0%nat.
Proof.
  intros Hlog. unfold StateTable.count_from.
  induction log as [|r log IH]; [done|].
  rewrite filter_cons. destruct (decide (r.1.2 = v)) as [Hr|_].
  - exfalso. by apply (Hlog r); [left|].
  - apply IH. intros r' Hr'. apply Hlog. by right.
Qed.

Lemma process_log_other (tab : GuardianTab.Tab)
    (segments : gmap string DataQualityFlag)
    (grddata reqdata nomdata okdata : list TimeSeries) (st : GuardianTab.State)
    (v : Z) (log : list Transition) :
  tab_wf tab →
  GuardianTab.process tab segments grddata reqdata nomdata okdata = Some st →
  GuardianTab.transitions st !! v = Some log →
  StateTable.count_from log v = 0%nat.
Proof.
  intros Hwf Hst Hlog. rewrite (process_log _ _ _ _ _ _ _ v Hwf Hst) in Hlog.
  destruct (decide _); [|done]. injection Hlog as <-.
  apply count_from_zero. intros r Hr.
  apply list_elem_of_In, in_concat in Hr as (l & Hl & Hr).
  apply list_elem_of_In, list_elem_of_fmap in Hl as (d & -> & _).
  by apply list_elem_of_In, detections_other in Hr as [? _].
Qed.

Lemma keys_lookup (gs : list (Z * string)) (i j : nat) (kn kn' : Z * string) :
  NoDup gs.*1 → gs !! i = Some kn → gs !! j = Some kn' → kn.1 = kn'.1 → i = j.
Proof.
  intros Hnd Hi Hj Heq. apply (NoDup_lookup gs.*1 i j kn.1); [done|..].
  - by rewrite list_lookup_fmap, Hi.
  - by rewrite list_lookup_fmap, Hj, Heq.
Qed.

(** X8.  With the rows of the configured states, the default of [from_ini],
    the table is written for the logs of [process]: one row for every
    state, headed by its name and closed by the length of its log, and
    in every column, the one of the state itself included, the number of
    records that come from the state of the column, or a dash for
    none. *)
Theorem table_counts (tab : GuardianTab.Tab)
    (segments : gmap string DataQualityFlag)
    (grddata reqdata nomdata okdata : list TimeSeries)
    (st : GuardianTab.State) :
  tab_wf tab →
  GuardianTab.process tab segments grddata reqdata nomdata okdata = Some st →
  ∃ rows,
    StateTable.table (GuardianTab.grdstates tab) (GuardianTab.grdstates tab).*1
      (GuardianTab.transitions st) = Some rows ∧
    length rows = length (GuardianTab.grdstates tab) ∧
    ∀ i k name, GuardianTab.grdstates tab !! i = Some (k, name) →
      ∃ log, GuardianTab.transitions st !! k = Some log ∧
        rows !! i
        = Some (PyStr.strip "*" name
                :: ((λ kn : Z * string,
                       StateTable.count_cell (StateTable.count_from log kn.1))
                      <$> GuardianTab.grdstates tab)
                ++ [str_of_int (Z.of_nat (length log))]).
Proof.
  intros Hwf Hst. pose proof Hwf as [Hnd _].
  set (gs := GuardianTab.grdstates tab) in *.
  set (L := λ v : Z, concat ((λ d : TimeSeries * TimeSeries * TimeSeries * TimeSeries,
                        detections d.1.1.1 v)
                     <$> epochs grddata reqdata nomdata okdata)).
  assert (∀ k, k ∈ gs.*1 → GuardianTab.transitions st !! k = Some (L k)) as HL.
  { intros k Hk. rewrite (process_log _ _ _ _ _ _ _ k Hwf Hst).
    by destruct (decide _). }
  set (row := λ (i : nat) (k : Z),
         PyStr.strip "*" (default "" (FromIni.odict_get gs k))
         :: ((λ kn : Z * string,
                StateTable.count_cell (StateTable.count_from (L k) kn.1)) <$> gs)
         ++ [str_of_int (Z.of_nat (length (L k)))]).
  exists (imap row gs.*1). split; [|split].
  - unfold StateTable.table. apply mapM_id_imap. intros i k Hi.
    rewrite list_lookup_fmap in Hi.
    destruct (gs !! i) as [[k' name]|] eqn:Hgi; [|done]. injection Hi as <-.
    assert ((k', name) ∈ gs) as Hin by by eapply list_elem_of_lookup_2.
    assert (k' ∈ gs.*1) as Hk
      by by apply (list_elem_of_fmap_2 fst _ (k', name)).
    unfold StateTable.table_row, row.
    rewrite (odict_get_Some gs k' name Hnd Hin). cbn [mbind option_bind default].
    rewrite (mapM_id_imap _
               (const (λ kn : Z * string,
                  StateTable.count_cell (StateTable.count_from (L k') kn.1)))).
    + cbn [mbind option_bind]. rewrite (HL k' Hk). cbn [mbind option_bind].
      by rewrite imap_const.
    + intros j kn Hj. unfold StateTable.cell, const.
      destruct (decide (i = j)) as [<-|_].
      * rewrite Hgi in Hj. injection Hj as <-. cbn [fst].
        rewrite (process_log_other _ _ _ _ _ _ _ _ _ Hwf Hst (HL k' Hk)).
        done.
      * by rewrite (HL k' Hk).
  - by rewrite length_imap, length_fmap.
  - intros i k name Hi.
    assert ((k, name) ∈ gs) as Hin by by eapply list_elem_of_lookup_2.
    assert (k ∈ gs.*1) as Hk by by apply (list_elem_of_fmap_2 fst _ (k, name)).
    exists (L k). split; [by apply HL|].
    rewrite list_lookup_imap, list_lookup_fmap, Hi. cbn [fmap option_fmap option_map fst].
    unfold row. by rewrite (odict_get_Some gs k name Hnd Hin).
Qed.

Lemma table_counts_witness :
  ∃ rows,
    StateTable.table (GuardianTab.grdstates scenario_tab)
      (GuardianTab.grdstates scenario_tab).*1
      (GuardianTab.transitions scenario_state) = Some rows ∧
    length rows = length (GuardianTab.grdstates scenario_tab) ∧
    ∀ i k name, GuardianTab.grdstates scenario_tab !! i = Some (k, name) →
      ∃ log, GuardianTab.transitions scenario_state !! k = Some log ∧
        rows !! i
        = Some (PyStr.strip "*" name
                :: ((λ kn : Z * string,
                       StateTable.count_cell (StateTable.count_from log kn.1))
                      <$> GuardianTab.grdstates scenario_tab)
                ++ [str_of_int (Z.of_nat (length log))]).
Proof.
  apply (table_counts scenario_tab ∅ [scenario] [scenario] [scenario]
           [scenario] scenario_state).
  - exact scenario_tab_wf.
  - exact scenario_state_eq.
Defined.

Lemma table_row_Some (gs : list (Z * string))
    (transitions : gmap Z (list Transition)) (i : nat) (bit : Z) :
  bit ∈ gs.*1 → is_Some (transitions !! bit) →
  is_Some (StateTable.table_row gs transitions i bit).
Proof.
  intros Hbit [log Hlog]. unfold StateTable.table_row.
  destruct (FromIni.odict_get gs bit) as [name|] eqn:Hname.
  - cbn [mbind option_bind].
    rewrite (mapM_id_imap _
               (λ j kn, if decide (i = j) then "-"
                        else StateTable.count_cell
                               (StateTable.count_from log kn.1))).
    + cbn [mbind option_bind]. rewrite Hlog. by eexists.
    + intros j kn _. unfold StateTable.cell.
      destruct (decide (i = j)); [done|by rewrite Hlog].
  - exfalso. revert Hname. clear -Hbit.
    induction gs as [|kn gs IH]; [by apply elem_of_nil in Hbit|].
    rewrite fmap_cons in Hbit. cbn [FromIni.odict_get].
    destruct (Z.eqb_spec kn.1 bit) as [|Hne]; [done|].
    apply elem_of_cons in Hbit as [?|Hbit]; [congruence|by apply IH].
Qed.

(** X9.  For the logs of [process], writing the table fails, with the
    [KeyError] of [self.grdstates[bit]], exactly when one of the states
    of its rows is not configured. *)
Theorem table_raises (tab : GuardianTab.Tab)
    (segments : gmap string DataQualityFlag)
    (grddata reqdata nomdata okdata : list TimeSeries)
    (st : GuardianTab.State) (transstates : list Z) :
  tab_wf tab →
  GuardianTab.process tab segments grddata reqdata nomdata okdata = Some st →
  StateTable.table (GuardianTab.grdstates tab) transstates
    (GuardianTab.transitions st) = None ↔
  ∃ bit, bit ∈ transstates ∧ bit ∉ (GuardianTab.grdstates tab).*1.
Proof.
  intros Hwf Hst. split.
  - intros Hnone.
    destruct (decide (Forall (λ bit, bit ∈ (GuardianTab.grdstates tab).*1)
                        transstates)) as [Hall|Hex].
    + exfalso. revert Hnone. unfold StateTable.table.
      rewrite (mapM_id_imap _
                 (λ i bit, default []
                    (StateTable.table_row (GuardianTab.grdstates tab)
                       (GuardianTab.transitions st) i bit))); [done|].
      intros i bit Hi.
      destruct (table_row_Some (GuardianTab.grdstates tab)
                  (GuardianTab.transitions st) i bit) as [row ->]; [..|done].
      * exact (Forall_lookup_1 _ _ _ _ Hall Hi).
      * rewrite (process_log _ _ _ _ _ _ _ bit Hwf Hst).
        rewrite decide_True; [by eexists|].
        exact (Forall_lookup_1 _ _ _ _ Hall Hi).
    + apply not_Forall_Exists in Hex; [|apply _].
      apply Exists_exists in Hex as (bit & ? & ?). by exists bit.
  - intros (bit & [i Hi]%list_elem_of_lookup_1 & Hbit).
    unfold StateTable.table. apply (mapM_id_imap_None _ _ i bit Hi).
    unfold StateTable.table_row. by rewrite (odict_get_None _ _ Hbit).
Qed.

Lemma table_raises_witness :
  StateTable.table (GuardianTab.grdstates scenario_tab) [2; 3]
    (GuardianTab.transitions scenario_state) = None ↔
  ∃ bit, bit ∈ [2; 3] ∧ bit ∉ (GuardianTab.grdstates scenario_tab).*1.
Proof.
  apply (table_raises scenario_tab ∅ [scenario] [scenario] [scenario]
           [scenario] scenario_state [2; 3]).
  - exact scenario_tab_wf.
  - exact scenario_state_eq.
Defined.

Lemma indicator_sum (keys : list Z) (x : Z) :
  NoDup keys →
  sum_list_with (λ k, if decide (x = k) then 1%nat else 0%nat) keys
  = if decide (x ∈ keys) then 1%nat else 0%nat.
Proof.
  induction keys as [|k keys IH]; intros Hnd; [done|].
  apply NoDup_cons in Hnd as [Hk Hnd]. cbn [sum_list_with].
  rewrite (IH Hnd). destruct (decide (x = k)) as [->|Hne].
  - rewrite (decide_False (P := k ∈ keys)) by done.
    rewrite decide_True; [done|by left].
  - destruct (decide (x ∈ keys)) as [Hin|Hnin].
    + rewrite decide_True; [done|by right].
    + rewrite decide_False; [done|]. by intros [?|?]%elem_of_cons.
Qed.

(** X10.  The total of a row against its cells: with distinct configured
    states, the length of a log is the sum of the counts over the
    configured states plus the number of records that come from a state
    that is not configured. *)
Theorem row_total (grdstates : list (Z * string)) (log : list Transition) :
  NoDup grdstates.*1 →
  length log
  = (sum_list_with (λ kn : Z * string, StateTable.count_from log kn.1) grdstates
     + length (filter (λ r : Transition, r.1.2 ∉ grdstates.*1) log))%nat.
Proof.
  intros Hnd. rewrite <- (sum_list_with_fmap (StateTable.count_from log) fst).
  induction log as [|r log IH].
  - cbn. by rewrite sum_list_with_zero.
  - rewrite filter_cons. cbn [length].
    rewrite (sum_list_with_ext (StateTable.count_from (r :: log))
               (λ k, ((if decide (r.1.2 = k) then 1 else 0)
                      + StateTable.count_from log k)%nat)).
    + rewrite sum_list_with_add, (indicator_sum _ _ Hnd).
      destruct (decide (r.1.2 ∈ grdstates.*1)) as [Hin|Hnin].
      * rewrite decide_False by tauto. lia.
      * rewrite decide_True by done. cbn [length]. lia.
    + intros k _. unfold StateTable.count_from. rewrite filter_cons.
      by destruct (decide (r.1.2 = k)).
Qed.

Lemma row_total_witness :
  length (detections from_unlisted 1)
  = (sum_list_with
       (λ kn : Z * string,
          StateTable.count_from (detections from_unlisted 1) kn.1)
       (GuardianTab.grdstates scenario_tab)
     + length (filter (λ r : Transition,
                         r.1.2 ∉ (GuardianTab.grdstates scenario_tab).*1)
                 (detections from_unlisted 1)))%nat.
Proof.
  apply (row_total (GuardianTab.grdstates scenario_tab)).
  apply (bool_decide_unpack _). by vm_compute.
Defined.

(** ** The keys of the plot and the channel names *)

Lemma labels_from_sub (i : Z) (values : list string) (plot : list bool)
    (ls : list string) :
  FromIni.labels_from i values plot = Some ls → ls ⊆ values.
Proof.
  revert i ls. induction values as [|l values IH]; intros i ls Hls.
  - injection Hls as <-. done.
  - cbn [FromIni.labels_from] in Hls.
    destruct (getitem plot (- i - 1)) as [p|]; [|done].
    cbn [mbind option_bind] in Hls.
    destruct (FromIni.labels_from (i + 1) values plot) as [ls'|] eqn:Hls';
      [|done].
    injection Hls as <-. apply IH in Hls'.
    destruct p; intros x Hx.
    + apply elem_of_cons in Hx as [->|Hx]; [by left|right; by apply Hls'].
    + right. by apply Hls'.
Qed.

Lemma split1_first (a b : string) :
  space_free a = true → PyStr.split1 " " (a +:+ " " +:+ b) !! 0%nat = Some a.
Proof.
  unfold space_free. induction a as [|c a IH]; intros Ha; [done|].
  cbn [PyStr.char_in] in Ha. apply negb_true_iff, orb_false_iff in Ha as [Hc Ha].
  rewrite append_cons. cbn [PyStr.split1].
  rewrite Ascii.eqb_sym in Hc. rewrite Hc.
  specialize (IH (proj2 (negb_true_iff _) Ha)).
  destruct (PyStr.split1 " " (a +:+ " " +:+ b)) as [|w ws]; [done|].
  by injection IH as ->.
Qed.

Lemma space_free_app (a b : string) :
  space_free a = true → space_free b = true → space_free (a +:+ b) = true.
Proof.
  unfold space_free. induction a as [|c a IH]; intros Ha Hb; [done|].
  rewrite append_cons. cbn [PyStr.char_in] in *.
  apply negb_true_iff, orb_false_iff in Ha as [Hc Ha].
  apply negb_true_iff, orb_false_iff. split; [done|].
  by apply negb_true_iff, IH; [apply negb_true_iff|].
Qed.

Lemma flag_first (ifo node name : string) :
  space_free ifo = true → space_free node = true →
  PyStr.split1 " " (ifo +:+ ":" +:+ node +:+ " " +:+ name) !! 0%nat
  = Some (ifo +:+ ":" +:+ node).
Proof.
  intros Hi Hn.
  rewrite <- (split1_first (ifo +:+ ":" +:+ node) name).
  - by rewrite !append_assoc.
  - apply space_free_app; [done|]. by apply (space_free_app ":").
Qed.

Lemma drop_prefix (a b : string) :
  PyStr.drop (String.length a) (a +:+ b) = b.
Proof.
  induction a as [|c a IH]; [by destruct b|].
  by rewrite append_cons.
Qed.

Section built_flags.
Context (int_ : string → option Z).

Lemma from_ini_flag (ifo node : string) (items : list (string * string))
    (transitions : option string) (t : FromIni.IniTab) (flag : string) :
  FromIni.from_ini int_ ifo node items transitions = Some t →
  percent_free ifo = true → percent_free node = true →
  flag ∈ FromIni.flags t →
  ∃ name, name ∈ (FromIni.grdstates t).*2 ∧
          flag = ifo +:+ ":" +:+ node +:+ " " +:+ name.
Proof.
  intros (plot & _ & _ & Htag & Hls & Hfs)%from_ini_Some Hifo Hnode Hflag.
  rewrite segmenttag_eq in Htag. injection Htag as Htag.
  rewrite <- Htag in Hfs.
  rewrite (mapM_total _ (λ name, ifo +:+ ":" +:+ node +:+ " " +:+ name))
    in Hfs by (intros name; by apply format_segmenttag).
  injection Hfs as Hfs. rewrite <- Hfs in Hflag.
  apply list_elem_of_fmap in Hflag as (name & -> & Hname).
  exists name. split; [|done].
  apply labels_from_sub in Hls. apply Hls in Hname.
  by rewrite elem_of_reverse in Hname.
Qed.

End built_flags.

(** X11.  The plot finds what [process] stored.  For a tab built by
    [from_ini] with names of the interferometer and the node that hold
    no [%] and no space, after [process] has run on at least one epoch,
    [globalv.SEGMENTS] holds segments under the three keys the plot asks
    for with each of its flags, and under the key of the liveness
    segments that it derives from the flag. *)
Theorem plot_keys_stored (int_ : string → option Z) (ifo node : string)
    (items : list (string * string))
    (transitions : option string) (t : FromIni.IniTab)
    (segments : gmap string DataQualityFlag)
    (grddata reqdata nomdata okdata : list TimeSeries)
    (st : GuardianTab.State) (flag : string) :
  FromIni.from_ini int_ ifo node items transitions = Some t →
  percent_free ifo = true → percent_free node = true →
  space_free ifo = true → space_free node = true →
  GuardianTab.process (FromIni.to_tab t) segments
    grddata reqdata nomdata okdata = Some st →
  epochs grddata reqdata nomdata okdata ≠ [] →
  flag ∈ FromIni.flags t →
  (∀ key, key ∈ StatePlot.segment_keys flag →
          is_Some (GuardianTab.SEGMENTS st !! key)) ∧
  ∃ key, StatePlot.ok_key flag = Some key ∧
         Tags.ok_tag (FromIni.segmenttag t) = Some key ∧
         is_Some (GuardianTab.SEGMENTS st !! key).
Proof.
  intros Hini Hifo Hnode Hsi Hsn Hst Heps Hflag.
  destruct (from_ini_flag _ _ _ _ _ _ _ Hini Hifo Hnode Hflag)
    as (name & Hname & ->).
  apply from_ini_Some in Hini as (_ & _ & _ & Htag & _).
  assert (∀ tag, node_tag ifo node (FromIni.grdstates t).*2 tag →
                 is_Some (GuardianTab.SEGMENTS st !! tag)) as Hstored.
  { intros tag Htg.
    apply (process_epochs_segs (FromIni.to_tab t) ifo node Hifo Hnode Htag
             _ _ _ tag Hst).
    right. by split. }
  split.
  - intros key Hkey. apply Hstored. right. exists name. split; [done|].
    unfold StatePlot.segment_keys, Tags.REQUESTSTUB, Tags.NOMINALSTUB in Hkey.
    rewrite !append_suffix in Hkey.
    apply elem_of_cons in Hkey as [->|Hkey]; [by left|].
    apply elem_of_cons in Hkey as [->|Hkey]; [right; by left|].
    apply list_elem_of_singleton in Hkey as ->. right; by right.
  - exists (ifo +:+ ":" +:+ node +:+ " OK"). split; [|split].
    + unfold StatePlot.ok_key. rewrite flag_first by done.
      cbn [mbind option_bind]. by rewrite !append_assoc.
    + rewrite segmenttag_eq in Htag. injection Htag as <-.
      by apply tags_eq.
    + apply Hstored. by left.
Qed.

(** X12.  For a tab built by [from_ini] with at least one flag, a name of the
    interferometer of two characters and names without [%] and without
    space, the plot recovers the name of the node from its first flag. *)
Theorem plot_node (int_ : string → option Z) (ifo node : string)
    (items : list (string * string))
    (transitions : option string) (t : FromIni.IniTab) :
  FromIni.from_ini int_ ifo node items transitions = Some t →
  percent_free ifo = true → percent_free node = true →
  space_free ifo = true → space_free node = true →
  String.length ifo = 2%nat → FromIni.flags t ≠ [] →
  StatePlot.node (FromIni.flags t) = Some node.
Proof.
  intros Hini Hifo Hnode Hsi Hsn Hlen Hne.
  destruct (FromIni.flags t) as [|flag flags] eqn:Hflags; [done|].
  destruct (from_ini_flag _ _ _ _ _ _ flag Hini Hifo Hnode)
    as (name & _ & ->); [rewrite Hflags; by left|].
  unfold StatePlot.node. cbn [lookup list_lookup mbind option_bind].
  rewrite flag_first by done. cbn [mbind option_bind]. f_equal.
  rewrite <- (append_assoc ifo ":" node).
  rewrite <- (drop_prefix (ifo +:+ ":") node) at 2. f_equal.
  clear -Hlen. destruct ifo as [|a [|b [|c ifo]]]; done.
Qed.

Lemma plot_keys_stored_witness :
  (∀ key, key ∈ StatePlot.segment_keys "H1:ISC_LOCK DOWN" →
          is_Some (GuardianTab.SEGMENTS
                     (default (GuardianTab.mkState ∅ ∅)
                        (GuardianTab.process (FromIni.to_tab scenario_ini) ∅
                           [scenario] [scenario] [scenario] [scenario]))
                   !! key)) ∧
  ∃ key, StatePlot.ok_key "H1:ISC_LOCK DOWN" = Some key ∧
         Tags.ok_tag (FromIni.segmenttag scenario_ini) = Some key ∧
         is_Some (GuardianTab.SEGMENTS
                    (default (GuardianTab.mkState ∅ ∅)
                       (GuardianTab.process (FromIni.to_tab scenario_ini) ∅
                          [scenario] [scenario] [scenario] [scenario]))
                  !! key).
Proof.
  apply (plot_keys_stored decimal_int "H1" "ISC_LOCK" scenario_items None
           scenario_ini ∅ [scenario] [scenario] [scenario] [scenario]).
  - exact scenario_ini_eq.
  - reflexivity.
  - reflexivity.
  - reflexivity.
  - reflexivity.
  - by vm_compute.
  - discriminate.
  - right. by left.
Defined.

Lemma plot_node_witness :
  StatePlot.node (FromIni.flags scenario_ini) = Some "ISC_LOCK".
Proof.
  apply (plot_node decimal_int "H1" "ISC_LOCK" scenario_items None).
  - exact scenario_ini_eq.
  - reflexivity.
  - reflexivity.
  - reflexivity.
  - reflexivity.
  - reflexivity.
  - discriminate.
Defined.




(** ** When [from_ini] returns *)

Lemma odict_set_length (d : list (Z * string)) (k : Z) (v : string) :
  (length (FromIni.odict_set d k v) ≤ S (length d))%nat.
Proof.
  induction d as [|kv d IH]; cbn [FromIni.odict_set length]; [lia|].
  destruct (kv.1 =? k); cbn [length]; lia.
Qed.

Lemma stored_length (pitems gs0 : list (Z * string)) :
  (length (foldl (λ d kn, FromIni.odict_set d kn.1 (PyStr.strip "*" kn.2))
             gs0 pitems)
   ≤ length gs0 + length pitems)%nat.
Proof.
  revert gs0. induction pitems as [|kn pitems IH]; intros gs0;
    cbn [foldl length]; [lia|].
  pose proof (IH (FromIni.odict_set gs0 kn.1 (PyStr.strip "*" kn.2))).
  pose proof (odict_set_length gs0 kn.1 (PyStr.strip "*" kn.2)). lia.
Qed.

Lemma labels_from_is_Some (i : Z) (values : list string) (plot : list bool) :
  0 <= i → i + Z.of_nat (length values) <= Z.of_nat (length plot) →
  is_Some (FromIni.labels_from i values plot).
Proof.
  revert i. induction values as [|l values IH]; intros i Hi Hlen;
    [by eexists|].
  cbn [length] in Hlen. cbn [FromIni.labels_from]. unfold getitem.
  destruct (Z.leb_spec 0 (- i - 1)); [lia|].
  destruct (Z.leb_spec 0 (Z.of_nat (length plot) + (- i - 1))); [|lia].
  destruct (lookup_lt_is_Some_2 plot
              (Z.to_nat (Z.of_nat (length plot) + (- i - 1)))) as [p ->]; [lia|].
  cbn [mbind option_bind].
  destruct (IH (i + 1)) as [ls ->]; [lia..|]. by eexists.
Qed.

(** X14.  With names of the interferometer and the node that hold no [%],
    [from_ini] raises in two cases only: an integer key of the section
    has an empty value, or the option [transitions] holds, between its
    commas, a piece that is no integer. *)
Theorem from_ini_raises (int_ : string → option Z) (ifo node : string)
    (items : list (string * string)) (transitions : option string) :
  percent_free ifo = true → percent_free node = true →
  FromIni.from_ini int_ ifo node items transitions = None ↔
  (∃ item, item ∈ items ∧ is_Some (int_ item.1) ∧ item.2 = "") ∨
  (∃ s piece, transitions = Some s ∧ piece ∈ PyStr.split "," s ∧
              int_ piece = None).
Proof.
  intros Hifo Hnode. rewrite <- read_states_None. unfold FromIni.from_ini.
  destruct (FromIni.read_states int_ items) as [[gs plot]|] eqn:Hread;
    [|split; [by left|done]].
  cbn [mbind option_bind fst snd].
  assert (FromIni.read_transstates int_ transitions gs = None ↔
          ∃ s piece, transitions = Some s ∧ piece ∈ PyStr.split "," s ∧
                     int_ piece = None) as Hts.
  { destruct transitions as [s|]; cbn [FromIni.read_transstates].
    - rewrite eq_None_not_Some, mapM_is_Some. split.
      + intros Hex. apply not_Forall_Exists, Exists_exists in Hex
          as (piece & Hin & Hp); [|apply _].
        exists s, piece. repeat split; [done|].
        by apply eq_None_not_Some.
      + intros (s' & piece & [= <-] & Hin & Hp) Hall.
        rewrite Forall_forall in Hall. apply Hall in Hin as [? ?].
        cbn in *. congruence.
    - split; [done|]. by intros (? & ? & ? & _). }
  rewrite <- Hts.
  destruct (FromIni.read_transstates int_ transitions gs) as [ts|];
    [|split; [by right|done]].
  cbn [mbind option_bind]. rewrite segmenttag_eq. cbn [mbind option_bind].
  destruct (labels_from_is_Some 0 (reverse gs.*2) plot) as [ls ->]; [lia|..].
  { unfold FromIni.read_states in Hread. rewrite read_states_fold in Hread.
    destruct (decide _); [|done]. injection Hread as <- <-.
    rewrite length_reverse, !length_fmap. cbn [app].
    pose proof (stored_length (int_items int_ items) []). cbn [length] in *.
    lia. }
  cbn [mbind option_bind].
  rewrite (mapM_total _ (λ name, ifo +:+ ":" +:+ node +:+ " " +:+ name))
    by (intros name; by apply format_segmenttag).
  split; [done|]. by intros [?|?].
Qed.

Lemma from_ini_raises_witness :
  FromIni.from_ini decimal_int "H1" "ISC_LOCK" scenario_items (Some "10,x")
  = None ↔
  (∃ item, item ∈ scenario_items ∧ is_Some (decimal_int item.1) ∧ item.2 = "") ∨
  (∃ s piece, Some "10,x" = Some s ∧ piece ∈ PyStr.split "," s ∧
              decimal_int piece = None).
Proof.
  apply (from_ini_raises decimal_int "H1" "ISC_LOCK" scenario_items
           (Some "10,x")); reflexivity.
Defined.

(** ** The tag of the plot *)

Lemma char_in_app (c : Ascii.ascii) (a b : string) :
  PyStr.char_in c (a +:+ b) = PyStr.char_in c a || PyStr.char_in c b.
Proof.
  induction a as [|d a IH]; [done|].
  rewrite append_cons. cbn [PyStr.char_in]. by rewrite IH, orb_assoc.
Qed.

Lemma sub_dash_space_clean (s : string) (c : Ascii.ascii) :
  PyStr.char_in c (PyStr.sub_dash_space s) = true →
  c ≠ "-"%char ∧ PyStr.is_space c = false.
Proof.
  induction s as [|d s IH]; [done|].
  cbn [PyStr.sub_dash_space PyStr.char_in].
  intros [Hc|Hc]%orb_true_iff; [|by apply IH].
  apply Ascii.eqb_eq in Hc as ->.
  destruct (Ascii.eqb d "-" || PyStr.is_space d) eqn:Hd; [done|].
  apply orb_false_iff in Hd as [Hd ?]. split; [|done].
  by apply Ascii.eqb_neq.
Qed.

Lemma literal_clean (c : Ascii.ascii) :
  PyStr.char_in c "GRD_" || PyStr.char_in c "_SEGMENTS" = true →
  c ≠ "-"%char ∧ PyStr.is_space c = false.
Proof.
  cbn [PyStr.char_in]. rewrite !orb_false_r, !orb_true_iff.
  rewrite !Ascii.eqb_eq. intuition (subst; done).
Qed.

(** X15.  The tag of the plot is [GRD_<node>_SEGMENTS] with every dash and
    every white-space character of the name of the node replaced by an
    underscore: whatever the name of the node, the tag holds no dash and
    no white space. *)
Theorem plot_tag_clean (int_ : string → option Z) (ifo node : string)
    (items : list (string * string)) (transitions : option string)
    (t : FromIni.IniTab) :
  FromIni.from_ini int_ ifo node items transitions = Some t →
  FromIni.plot_tag t = "GRD_" +:+ PyStr.sub_dash_space node +:+ "_SEGMENTS" ∧
  String.length (FromIni.plot_tag t) = (String.length node + 13)%nat ∧
  ∀ c, PyStr.char_in c (FromIni.plot_tag t) = true →
       c ≠ "-"%char ∧ PyStr.is_space c = false.
Proof.
  intros Hini.
  assert (FromIni.plot_tag t
          = "GRD_" +:+ PyStr.sub_dash_space node +:+ "_SEGMENTS") as Htag.
  { unfold FromIni.from_ini in Hini.
    destruct (FromIni.read_states int_ items) as [sp|]; [|done].
    cbn [mbind option_bind] in Hini.
    destruct (FromIni.read_transstates int_ transitions sp.1); [|done].
    cbn [mbind option_bind] in Hini. rewrite segmenttag_eq in Hini.
    cbn [mbind option_bind] in Hini.
    destruct (FromIni.labels_from 0 (reverse sp.1.*2) sp.2); [|done].
    cbn [mbind option_bind] in Hini.
    destruct (mapM _ _); [|done]. by injection Hini as <-. }
  rewrite Htag. split; [done|]. split.
  - rewrite !string_length_app. cbn [String.length].
    assert (String.length (PyStr.sub_dash_space node) = String.length node)
      as -> by (clear; induction node as [|c n IH]; [done|];
                cbn [PyStr.sub_dash_space String.length]; by rewrite IH).
    lia.
  - intros c. rewrite !char_in_app.
    intros [Hc|[Hc|Hc]%orb_true_iff]%orb_true_iff.
    + apply literal_clean. by rewrite Hc.
    + by apply (sub_dash_space_clean node).
    + apply literal_clean. by rewrite Hc, orb_true_r.
Qed.

Lemma plot_tag_clean_witness :
  FromIni.plot_tag scenario_ini
  = "GRD_" +:+ PyStr.sub_dash_space "ISC_LOCK" +:+ "_SEGMENTS" ∧
  String.length (FromIni.plot_tag scenario_ini)
  = (String.length "ISC_LOCK" + 13)%nat ∧
  ∀ c, PyStr.char_in c (FromIni.plot_tag scenario_ini) = true →
       c ≠ "-"%char ∧ PyStr.is_space c = false.
Proof.
  apply (plot_tag_clean decimal_int "H1" "ISC_LOCK" scenario_items None).
  exact scenario_ini_eq.
Defined.

(** ** Records and segments *)

Lemma run_extends (mask : list bool) (i : nat) :
  mask !! i = Some true →
  ∃ m, (i < m)%nat ∧ all_true mask i m ∧ run_end mask m.
Proof.
  remember (length mask - i)%nat as d eqn:Hd. revert i Hd.
  induction d as [|d IH]; intros i Hd Hi.
  - apply lookup_lt_Some in Hi. lia.
  - destruct (mask !! S i) as [[|]|] eqn:Hnext.
    + destruct (IH (S i)) as (m & Hm & Hall & Hend); [lia|done|].
      exists m. split; [lia|]. split; [|done].
      intros k Hk. destruct (decide (k = i)) as [->|]; [done|].
      apply Hall. lia.
    + exists (S i). split; [lia|]. split; [|by right].
      intros k Hk. by replace k with i by lia.
    + exists (S i). split; [lia|]. split.
      * intros k Hk. by replace k with i by lia.
      * left. apply lookup_ge_None in Hnext. apply lookup_lt_Some in Hi. lia.
Qed.

Lemma detections_segment (s : TimeSeries) (v : Z) (r : Transition) :
  r ∈ detections s v → ∃ b, (r.1.1, b) ∈ Segmenter.segment s v.
Proof.
  intros (i & j & Hij & ->)%detections_elem.
  pose proof (elem_of_zip_l _ _ _ _ Hij) as Hi.
  apply transin_spec in Hi as (n & x & -> & Hn & Hx & Hv).
  assert (eq_scalar (value s) v !! n = Some false) as Hmn.
  { unfold eq_scalar. rewrite list_lookup_fmap, Hn. cbn.
    f_equal. by apply Z.eqb_neq. }
  assert (eq_scalar (value s) v !! S n = Some true) as Hmv.
  { unfold eq_scalar. rewrite list_lookup_fmap, Hv. cbn.
    f_equal. by apply Z.eqb_eq. }
  destruct (run_extends _ _ Hmv) as (m & Hm & Hall & Hend).
  exists (sample_time (x0 s) (dx s) m).
  unfold Segmenter.segment, Segmenter.to_dqflag. cbn [active].
  apply bool_segments_spec. right. exists (S n), m.
  repeat split; try done.
Qed.

(** X16.  The times of the table are times of the segments: every record
    that [process] logs for a state carries the time at which one of the
    segments of that state, in the series of one of the epochs, begins
    (the segments being those of the segmenter of the specification). *)
Theorem record_opens_segment (tab : GuardianTab.Tab)
    (segments : gmap string DataQualityFlag)
    (grddata reqdata nomdata okdata : list TimeSeries) (st : GuardianTab.State)
    (v : Z) (log : list Transition) (r : Transition) :
  tab_wf tab →
  GuardianTab.process tab segments grddata reqdata nomdata okdata = Some st →
  GuardianTab.transitions st !! v = Some log → r ∈ log →
  ∃ d b, d ∈ epochs grddata reqdata nomdata okdata ∧
         (r.1.1, b) ∈ Segmenter.segment d.1.1.1 v.
Proof.
  intros Hwf Hst Hlog Hr. rewrite (process_log _ _ _ _ _ _ _ v Hwf Hst) in Hlog.
  destruct (decide _); [|done]. injection Hlog as <-.
  apply list_elem_of_In, in_concat in Hr as (l & Hl & Hr).
  apply list_elem_of_In, list_elem_of_fmap in Hl as (d & -> & Hd).
  apply list_elem_of_In, detections_segment in Hr as [b Hb].
  by exists d, b.
Qed.

Lemma record_opens_segment_witness :
  ∃ d b, d ∈ epochs [scenario] [scenario] [scenario] [scenario] ∧
         ((3, 1, 1).1.1, b) ∈ Segmenter.segment d.1.1.1 2.
Proof.
  apply (record_opens_segment scenario_tab ∅ [scenario] [scenario] [scenario]
           [scenario] scenario_state 2 [(3, 1, 1)] (3, 1, 1)).
  - exact scenario_tab_wf.
  - exact scenario_state_eq.
  - by vm_compute.
  - by left.
Defined.
